(** * BBH tracker (app.py): data store, rollups and form handlers

    A shallow embedding of [app.py].  The SQLite store is a record of
    tables, each table the list of its rows in rowid order.  Queries are
    list operations: [.filter(...).all()] is [filter], [.first()] is the
    head of the filtered list, [func.sum] is [sql_sum].

    Numbers.  A monetary value enters the store as the decimal
    [Decimal(str(x))], a rational ([Qc]).  The rollups are given twice.
    The definitions at top level carry out the steps of the source in
    exact rational arithmetic; they serve the properties that do not
    depend on rounding (which rows are summed, what is zero, what stays
    unchanged, what has a sign).  Module [Binary64] carries out the same
    steps in the numbers of the source: doubles, with every NUMERIC(14,2)
    value read back at two fractional digits. *)

From Stdlib Require Import ZArith QArith Qcanon Uint63.
From Stdlib Require Import Floats.PrimFloat Floats.SpecFloat Floats.FloatOps.
From stdpp Require Import base strings list numbers gmap pretty sorting.

Open Scope Qc_scope.

(** ** Dates *)

Record date := Date { year : nat; month : nat; day : nat }.

(** Left-pad a decimal numeral with zeros, as ["%04d"] and ["%02d"] do. *)
Definition zero_pad (width n : nat) : string :=
  let s := pretty n in
  String.concat "" (replicate (width - String.length s) "0") +:+ s.

(** [datetime.date.isoformat]: YYYY-MM-DD. *)
Definition isoformat (d : date) : string :=
  zero_pad 4 (year d) +:+ "-" +:+ zero_pad 2 (month d) +:+ "-" +:+ zero_pad 2 (day d).

(** ** Tables (the declarative classes of the source) *)

Module Company.
Record t := mk { id : nat; name : string; is_parent : bool }.
End Company.

Module Subsidiary.
Record t := mk { id : nat; name : string; company_id : nat }.
End Subsidiary.

Module Client.
Record t := mk { id : nat; name : string; contact : string; email : string }.
End Client.

Module Contract.
Record t := mk {
    id : nat;
    title : string;
    subsidiary_id : nat;
    client_id : nat;
    signed_date : option date;
    start_date : option date;
    end_date : option date;
    contract_value : option Qc;
    retainer : option Qc;
    percent_to_subsidiary : option Qc;
    status : string;
    notes : string }.
End Contract.

Module Expense.
Record t := mk { id : nat; contract_id : nat; amount : Qc; description : string; date_ : date }.
End Expense.

Module Revenue.
Record t := mk { id : nat; contract_id : nat; amount : Qc; date_ : date; description : string }.
End Revenue.

Module EquityAward.
Record t := mk {
    id : nat; contract_id : nat; recipient : string; percent : Qc;
    notes : string; date_ : date }.
End EquityAward.

(** The database: one list of rows per [__tablename__]. *)
Record DB := mkDB {
  companies : list Company.t;
  subsidiaries : list Subsidiary.t;
  clients : list Client.t;
  contracts : list Contract.t;
  expenses : list Expense.t;
  revenues : list Revenue.t;
  equity_awards : list EquityAward.t }.

(** [Base.metadata.create_all] on a fresh file. *)
Definition empty_db : DB := mkDB [] [] [] [] [] [] [].

(** ** Query helpers *)

(** SQL [SUM]: NULL over no rows, otherwise the running total. *)
Definition sql_sum (xs : list Qc) : option Qc :=
  match xs with
  | [] => None
  | _ => Some (foldl Qcplus 0 xs)
  end.

(** SQL [COALESCE(x, d)]. *)
Definition coalesce (x : option Qc) (d : Qc) : Qc :=
  match x with Some v => v | None => d end.

(** Python [x or 0] on a number: a falsy [x] (zero) gives [0]. *)
Definition or_zero (x : Qc) : Qc := if decide (x = 0) then 0 else x.

(** Python [x or 0] on a nullable number: [None] is falsy as well. *)
Definition opt_or_zero (x : option Qc) : Qc :=
  match x with Some v => or_zero v | None => 0 end.

Definition hundred : Qc := Qc_of_Z 100.

(** ** Rollups *)

Module ContractAgg.
Record t := mk { revenue : Qc; expenses : Qc; profit : Qc; subsidiary_share : Qc }.
End ContractAgg.

Module SubsidiaryAgg.
Record t := mk { revenue : Qc; expenses : Qc; profit : Qc; contracts : nat }.
End SubsidiaryAgg.

Module CompanyAgg.
Record t := mk { revenue : Qc; expenses : Qc; profit : Qc; subsidiaries : nat }.
End CompanyAgg.

(** Rows of the two ledgers that belong to a contract id. *)
Definition revenues_of (d : DB) (cid : nat) : list Revenue.t :=
  filter (λ r, Revenue.contract_id r = cid) (revenues d).

Definition expenses_of (d : DB) (cid : nat) : list Expense.t :=
  filter (λ e, Expense.contract_id e = cid) (expenses d).

Definition calc_contract_aggregates (d : DB) (contract : Contract.t) : ContractAgg.t :=
  let total_revenue :=
    or_zero (coalesce (sql_sum (Revenue.amount <$> revenues_of d (Contract.id contract))) 0) in
  let total_expenses :=
    or_zero (coalesce (sql_sum (Expense.amount <$> expenses_of d (Contract.id contract))) 0) in
  let profit := total_revenue - total_expenses in
  let subsidiary_share :=
    profit * opt_or_zero (Contract.percent_to_subsidiary contract) / hundred in
  ContractAgg.mk total_revenue total_expenses profit subsidiary_share.

Definition contracts_of (d : DB) (subsidiary_id : nat) : list Contract.t :=
  filter (λ c, Contract.subsidiary_id c = subsidiary_id) (contracts d).

Definition aggregate_for_subsidiary (d : DB) (subsidiary_id : nat) : SubsidiaryAgg.t :=
  let cs := contracts_of d subsidiary_id in
  foldl (λ agg c,
           let a := calc_contract_aggregates d c in
           SubsidiaryAgg.mk
             (SubsidiaryAgg.revenue agg + ContractAgg.revenue a)
             (SubsidiaryAgg.expenses agg + ContractAgg.expenses a)
             (SubsidiaryAgg.profit agg + ContractAgg.profit a)
             (SubsidiaryAgg.contracts agg))
        (SubsidiaryAgg.mk 0 0 0 (length cs)) cs.

Definition subsidiaries_of (d : DB) (company_id : nat) : list Subsidiary.t :=
  filter (λ s, Subsidiary.company_id s = company_id) (subsidiaries d).

Definition aggregate_for_company (d : DB) (company_id : nat) : CompanyAgg.t :=
  let subs := subsidiaries_of d company_id in
  foldl (λ agg s,
           let a := aggregate_for_subsidiary d (Subsidiary.id s) in
           CompanyAgg.mk
             (CompanyAgg.revenue agg + SubsidiaryAgg.revenue a)
             (CompanyAgg.expenses agg + SubsidiaryAgg.expenses a)
             (CompanyAgg.profit agg + SubsidiaryAgg.profit a)
             (CompanyAgg.subsidiaries agg))
        (CompanyAgg.mk 0 0 0 (length subs)) subs.

(** ** Exceptions, feedback and the store's write operations *)

(** The exceptions the modelled code can raise. *)
Inductive exn :=
  | IntegrityError (constraint : string)   (* a UNIQUE column already holds the value *)
  | AttributeError (attribute : string)    (* attribute access on [None] *)
  | KeyError (key : string).               (* dict subscript with a missing key *)

Inductive result (A : Type) : Type :=
  | Ok (a : A)
  | Raise (e : exn).
Arguments Ok {A} a.
Arguments Raise {A} e.

#[global] Instance result_ret : MRet result := λ A a, Ok a.
#[global] Instance result_bind : MBind result := λ A B f m,
  match m with Ok a => f a | Raise e => Raise e end.

(** What a handler shows: [st.success] or [st.warning]. *)
Inductive feedback :=
  | success (msg : string)
  | warning (msg : string).

(** SQLite gives an INTEGER PRIMARY KEY one more than the largest rowid. *)
Definition next_id (ids : list nat) : nat := S (max_list ids).

(** [filter_by(name=...).first()] on the three named tables. *)
Definition company_by_name (d : DB) (n : string) : option Company.t :=
  head (filter (λ c, Company.name c = n) (companies d)).

Definition subsidiary_by_name (d : DB) (n : string) : option Subsidiary.t :=
  head (filter (λ s, Subsidiary.name s = n) (subsidiaries d)).

Definition client_by_name (d : DB) (n : string) : option Client.t :=
  head (filter (λ c, Client.name c = n) (clients d)).

(** [sess.add(...)] followed by the flush of the INSERT.  The three name
    columns are declared [unique=True]; foreign keys are declared but the
    engine is opened without enabling their enforcement, so an INSERT
    checks uniqueness only. *)
Definition add_company (d : DB) (name : string) (is_parent : bool)
  : result (Company.t * DB) :=
  if decide (name ∈ Company.name <$> companies d)
  then Raise (IntegrityError "companies.name")
  else
    let row := Company.mk (next_id (Company.id <$> companies d)) name is_parent in
    Ok (row, mkDB (companies d ++ [row]) (subsidiaries d) (clients d) (contracts d)
                  (expenses d) (revenues d) (equity_awards d)).

Definition add_subsidiary (d : DB) (name : string) (company_id : nat)
  : result (Subsidiary.t * DB) :=
  if decide (name ∈ Subsidiary.name <$> subsidiaries d)
  then Raise (IntegrityError "subsidiaries.name")
  else
    let row := Subsidiary.mk (next_id (Subsidiary.id <$> subsidiaries d)) name company_id in
    Ok (row, mkDB (companies d) (subsidiaries d ++ [row]) (clients d) (contracts d)
                  (expenses d) (revenues d) (equity_awards d)).

Definition add_client (d : DB) (name contact email : string)
  : result (Client.t * DB) :=
  if decide (name ∈ Client.name <$> clients d)
  then Raise (IntegrityError "clients.name")
  else
    let row := Client.mk (next_id (Client.id <$> clients d)) name contact email in
    Ok (row, mkDB (companies d) (subsidiaries d) (clients d ++ [row]) (contracts d)
                  (expenses d) (revenues d) (equity_awards d)).

Definition add_revenue (d : DB) (cid : nat) (amount : Qc) (on : date) (description : string)
  : DB :=
  let row := Revenue.mk (next_id (Revenue.id <$> revenues d)) cid amount on description in
  mkDB (companies d) (subsidiaries d) (clients d) (contracts d)
       (expenses d) (revenues d ++ [row]) (equity_awards d).

Definition add_expense (d : DB) (cid : nat) (amount : Qc) (on : date) (description : string)
  : DB :=
  let row := Expense.mk (next_id (Expense.id <$> expenses d)) cid amount description on in
  mkDB (companies d) (subsidiaries d) (clients d) (contracts d)
       (expenses d ++ [row]) (revenues d) (equity_awards d).

Definition add_equity_award (d : DB) (cid : nat) (recipient : string) (percent : Qc)
    (notes : string) (on : date) : DB :=
  let row := EquityAward.mk (next_id (EquityAward.id <$> equity_awards d)) cid recipient
                            percent notes on in
  mkDB (companies d) (subsidiaries d) (clients d) (contracts d)
       (expenses d) (revenues d) (equity_awards d ++ [row]).

(** The relationships [c.subsidiary] and [c.client] followed by [.name]:
    a dangling key loads [None], and [.name] on it raises. *)
Definition subsidiary_name_of (d : DB) (c : Contract.t) : result string :=
  match head (filter (λ s, Subsidiary.id s = Contract.subsidiary_id c) (subsidiaries d)) with
  | Some s => Ok (Subsidiary.name s)
  | None => Raise (AttributeError "name")
  end.

Definition client_name_of (d : DB) (c : Contract.t) : result string :=
  match head (filter (λ x, Client.id x = Contract.client_id c) (clients d)) with
  | Some x => Ok (Client.name x)
  | None => Raise (AttributeError "name")
  end.

(** ** Sidebar: default organisation *)

(** One turn of the loop over the two subsidiary names. *)
Definition ensure_subsidiary (parent_id : nat) (d : DB) (name : string) : result DB :=
  match subsidiary_by_name d name with
  | Some _ => Ok d
  | None => '(_, d') ← add_subsidiary d name parent_id; Ok d'
  end.

Fixpoint for_each {A} (body : DB → A → result DB) (d : DB) (xs : list A) : result DB :=
  match xs with
  | [] => Ok d
  | x :: rest => d' ← body d x; for_each body d' rest
  end.

(** The handler of the button "Create default parent & subsidiaries".
    The result pairs the committed store with what the run ended in: a
    message, or the exception that stopped it (a failed flush commits
    nothing). *)
Definition bootstrap_default_org (d : DB) : DB * result feedback :=
  let parent :=
    match company_by_name d "BBH" with
    | Some p => Ok (p, d)
    | None => add_company d "Black Bear Holdings" true
    end in
  match parent with
  | Raise e => (d, Raise e)
  | Ok (p, d1) =>
      match for_each (ensure_subsidiary (Company.id p)) d1 ["NexxusGovSec"; "3SixMedia"] with
      | Raise e => (d1, Raise e)
      | Ok d2 => (d2, Ok (success "Created BBH, NGS, and 3SM (if missing)."))
      end
  end.

(** ** Data entry: clients and subsidiaries *)

(** [client_form], on "Create client". *)
Definition create_client (d : DB) (cname contact email : string) : DB * result feedback :=
  if decide (cname = "") then (d, Ok (warning "Client name required"))
  else
    match client_by_name d cname with
    | Some _ => (d, Ok (warning "Client exists"))
    | None =>
        match add_client d cname contact email with
        | Ok (_, d') => (d', Ok (success ("Created client: " +:+ cname)))
        | Raise e => (d, Raise e)
        end
    end.

(** [{c.name: c.id for c in companies}]: a later row replaces an earlier
    one under the same key. *)
Definition comp_options (d : DB) : gmap string nat :=
  foldl (λ m c, <[Company.name c := Company.id c]> m) ∅ (companies d).

(** [subsidiary_form], on "Create subsidiary"; [parent_choice] is the value
    of the select box, [None] when there is no company to offer. *)
Definition create_subsidiary (d : DB) (sname : string) (parent_choice : option string)
  : DB * result feedback :=
  match parent_choice with
  | Some choice =>
      if decide (sname = "" ∨ choice = "")
      then (d, Ok (warning "Subsidiary name and parent required"))
      else
        match comp_options d !! choice with
        | None => (d, Raise (KeyError choice))
        | Some pid =>
            match subsidiary_by_name d sname with
            | Some _ => (d, Ok (warning "Subsidiary exists"))
            | None =>
                match add_subsidiary d sname pid with
                | Ok (_, d') =>
                    (d', Ok (success ("Created subsidiary " +:+ sname +:+ " under " +:+ choice)))
                | Raise e => (d, Raise e)
                end
            end
        end
  | None => (d, Ok (warning "Subsidiary name and parent required"))
  end.

(** ** Data entry: contracts *)

Definition subs_options (d : DB) : gmap string nat :=
  foldl (λ m s, <[Subsidiary.name s := Subsidiary.id s]> m) ∅ (subsidiaries d).

Definition clients_options (d : DB) : gmap string nat :=
  foldl (λ m c, <[Client.name c := Client.id c]> m) ∅ (clients d).

(** The values of the contract form's free widgets. *)
Record contract_fields := ContractFields {
  title : string; contract_value : Qc; retainer : Qc; percent_to_sub : Qc;
  signed_date : option date; status : string; contract_notes : string }.

(** [contract_form], on "Create contract". *)
Definition create_contract (d : DB) (sub_choice client_choice : option string)
    (f : contract_fields) : DB * result feedback :=
  match sub_choice, client_choice with
  | Some sc, Some cc =>
      if decide (title f = "" ∨ sc = "" ∨ cc = "")
      then (d, Ok (warning "Title, subsidiary, and client required"))
      else
        match subs_options d !! sc with
        | None => (d, Raise (KeyError sc))
        | Some sid =>
            match clients_options d !! cc with
            | None => (d, Raise (KeyError cc))
            | Some clid =>
                let row :=
                  Contract.mk (next_id (Contract.id <$> contracts d)) (title f) sid clid
                              (signed_date f) None None
                              (Some (contract_value f)) (Some (retainer f))
                              (Some (percent_to_sub f)) (status f) (contract_notes f) in
                (mkDB (companies d) (subsidiaries d) (clients d) (contracts d ++ [row])
                      (expenses d) (revenues d) (equity_awards d),
                 Ok (success ("Created contract " +:+ title f)))
            end
        end
  | _, _ => (d, Ok (warning "Title, subsidiary, and client required"))
  end.

(** ** Data entry: revenue, expense, equity *)

Inductive record_type := Revenue_kind | Expense_kind | Equity_kind.

(** The values of the form's input widgets. *)
Record finance_fields := FinanceFields {
  amt : Qc; desc : string; rdate : date;
  recipient : string; pct : Qc; notes : string; edate : date }.

Definition contract_label (d : DB) (c : Contract.t) : result string :=
  sub ← subsidiary_name_of d c;
  Ok (pretty (Contract.id c) +:+ " - " +:+ Contract.title c +:+ " (" +:+ sub +:+ ")").

(** [{f"{c.id} - {c.title} ({c.subsidiary.name})": c.id for c in contracts}]. *)
Fixpoint contract_map_of (d : DB) (m : gmap string nat) (cs : list Contract.t)
  : result (gmap string nat) :=
  match cs with
  | [] => Ok m
  | c :: rest => l ← contract_label d c; contract_map_of d (<[l := Contract.id c]> m) rest
  end.

Definition contract_map (d : DB) : result (gmap string nat) :=
  contract_map_of d ∅ (contracts d).

(** [finance_form], on its submit button; [selected] is the value of the
    contract select box, [None] when [contract_map] is empty.  The run ends
    without a message when nothing is selected. *)
Definition finance_form (d : DB) (kind : record_type) (selected : option string)
    (f : finance_fields) : DB * result (option feedback) :=
  match contract_map d with
  | Raise e => (d, Raise e)
  | Ok m =>
      match selected with
      | Some label =>
          if decide (label = "") then (d, Ok None)
          else
            match m !! label with
            | None => (d, Raise (KeyError label))
            | Some cid =>
                match kind with
                | Revenue_kind =>
                    (add_revenue d cid (amt f) (rdate f) (desc f),
                     Ok (Some (success "Revenue recorded")))
                | Expense_kind =>
                    (add_expense d cid (amt f) (rdate f) (desc f),
                     Ok (Some (success "Expense recorded")))
                | Equity_kind =>
                    (add_equity_award d cid (recipient f) (pct f) (notes f) (edate f),
                     Ok (Some (success "Equity award recorded")))
                end
            end
      | None => (d, Ok None)
      end
  end.

(** ** Sidebar: export of the contracts *)

Inductive cell :=
  | int_cell (n : nat)
  | str_cell (s : string)
  | float_cell (x : Qc).

(** The dict appended to [rows] for one contract, keys in literal order;
    the numbers are those of the exact definitions above. *)
Definition export_row (d : DB) (c : Contract.t) : result (list (string * cell)) :=
  let a := calc_contract_aggregates d c in
  sub ← subsidiary_name_of d c;
  cl ← client_name_of d c;
  Ok [ ("contract_id", int_cell (Contract.id c));
       ("title", str_cell (Contract.title c));
       ("subsidiary", str_cell sub);
       ("client", str_cell cl);
       ("status", str_cell (Contract.status c));
       ("contract_value", float_cell (opt_or_zero (Contract.contract_value c)));
       ("retainer", float_cell (opt_or_zero (Contract.retainer c)));
       ("signed_date",
        str_cell (match Contract.signed_date c with Some s => isoformat s | None => "" end));
       ("revenue", float_cell (ContractAgg.revenue a));
       ("expenses", float_cell (ContractAgg.expenses a));
       ("profit", float_cell (ContractAgg.profit a)) ].

(** [pd.DataFrame(rows)] for rows that all come from one dict literal: the
    columns are the keys of the rows, and there are none without a row. *)
Record DataFrame := mkDataFrame { columns : list string; values : list (list cell) }.

Definition DataFrame_of (rows : list (list (string * cell))) : DataFrame :=
  mkDataFrame (match rows with [] => [] | r :: _ => r.*1 end) ((λ r, r.*2) <$> rows).

(** [df.to_csv(index=False)], line by line and cell by cell: the line of
    column labels, then one line per row. *)
Definition to_csv (df : DataFrame) : list (list cell) :=
  (str_cell <$> columns df) :: values df.

Definition export_contracts_csv (d : DB) : result (list (list cell)) :=
  rows ← mapM (export_row d) (contracts d);
  Ok (to_csv (DataFrame_of rows)).

(** ** Admin: wipe *)

(** [drop_all] followed by [create_all]. *)
Definition wipe (d : DB) : DB := empty_db.

(** ** The runs of the application *)

(** One user action that writes to the store.  The widget values range
    over everything the handlers accept. *)
Inductive step : DB → DB → Prop :=
  | step_bootstrap d :
      step d ((bootstrap_default_org d).1)
  | step_client d cname contact email :
      step d ((create_client d cname contact email).1)
  | step_subsidiary d sname parent_choice :
      step d ((create_subsidiary d sname parent_choice).1)
  | step_contract d sub_choice client_choice f :
      step d ((create_contract d sub_choice client_choice f).1)
  | step_finance d kind selected f :
      step d ((finance_form d kind selected f).1)
  | step_wipe d :
      step d (wipe d).

(** The stores the application can be in, starting from a fresh file. *)
Definition reachable (d : DB) : Prop := rtc step empty_db d.

(** ** Specification-side vocabulary *)

(** The mathematical sum of a list of amounts. *)
Definition Qc_sum (xs : list Qc) : Qc := foldr Qcplus 0 xs.

(** Every subsidiary row points at a company row (the store does not
    enforce foreign keys; the forms only ever write such rows). *)
Definition subsidiaries_reference_companies (d : DB) : Prop :=
  ∀ s, s ∈ subsidiaries d → ∃ c, c ∈ companies d ∧ Company.id c = Subsidiary.company_id s.

(** Every row of the three ledgers points at a contract row. *)
Definition references_contract (d : DB) (cid : nat) : Prop :=
  ∃ c, c ∈ contracts d ∧ Contract.id c = cid.

(** [d'] is [d] with exactly one ledger row appended, and that row is
    attached to a contract of [d]. *)
Definition one_row_recorded (d d' : DB) : Prop :=
  companies d' = companies d ∧ subsidiaries d' = subsidiaries d
  ∧ clients d' = clients d ∧ contracts d' = contracts d
  ∧ ((∃ row, revenues d' = revenues d ++ [row]
             ∧ references_contract d (Revenue.contract_id row)
             ∧ expenses d' = expenses d ∧ equity_awards d' = equity_awards d)
     ∨ (∃ row, expenses d' = expenses d ++ [row]
               ∧ references_contract d (Expense.contract_id row)
               ∧ revenues d' = revenues d ∧ equity_awards d' = equity_awards d)
     ∨ (∃ row, equity_awards d' = equity_awards d ++ [row]
               ∧ references_contract d (EquityAward.contract_id row)
               ∧ revenues d' = revenues d ∧ expenses d' = expenses d)).

(** The selection of the finance form leads to a contract id. *)
Definition resolves (d : DB) (selected : option string) : Prop :=
  ∃ label m cid, selected = Some label ∧ contract_map d = Ok m ∧ m !! label = Some cid.


(** The header the export is specified to carry. *)
Definition export_columns : list string :=
  ["contract_id"; "title"; "subsidiary"; "client"; "status"; "contract_value";
   "retainer"; "signed_date"; "revenue"; "expenses"; "profit"].

Definition no_fields : finance_fields := FinanceFields 0 "" (Date 2024 1 1) "" 0 "" (Date 2024 1 1).

(** The example of the specification: one contract at 50 percent with
    revenue entries 500 and 300 and one expense entry 200. *)
Definition jan1 : date := Date 2024 1 1.

Definition example_contract : Contract.t :=
  Contract.mk 1 "Audit" 1 1 None None None (Some (Qc_of_Z 10000)) (Some 0)
              (Some (Qc_of_Z 50)) "signed" "".

Definition example_db : DB :=
  mkDB [Company.mk 1 "BBH" true]
       [Subsidiary.mk 1 "NexxusGovSec" 1]
       [Client.mk 1 "Acme" "" ""]
       [example_contract]
       [Expense.mk 1 1 (Qc_of_Z 200) "travel" jan1]
       [Revenue.mk 1 1 (Qc_of_Z 500) jan1 "retainer";
        Revenue.mk 2 1 (Qc_of_Z 300) jan1 "milestone"]
       [].

(** ** Dashboard: revenue over time *)

(** Python compares dates by year, then month, then day. *)
Definition date_lt (a b : date) : Prop :=
  (year a < year b)%nat
  ∨ (year a = year b
     ∧ ((month a < month b)%nat ∨ (month a = month b ∧ (day a < day b)%nat))).

Definition date_le (a b : date) : Prop := date_lt a b ∨ a = b.

#[global] Instance date_eq_dec : EqDecision date.
Proof. solve_decision. Defined.

#[global] Instance date_lt_dec (a b : date) : Decision (date_lt a b).
Proof. unfold date_lt. apply _. Defined.

#[global] Instance date_le_dec (a b : date) : Decision (date_le a b).
Proof. unfold date_le. apply _. Defined.


(** ** The arithmetic of the source *)

Module Binary64.

(** An integer as a double; exact below 2^53. *)
Definition of_Z (z : Z) : float :=
  match z with
  | Z0 => PrimFloat.of_uint63 0
  | Zpos _ => PrimFloat.of_uint63 (Uint63.of_Z z)
  | Zneg p => PrimFloat.opp (PrimFloat.of_uint63 (Uint63.of_Z (Zpos p)))
  end.

Definition zero : float := of_Z 0.

(** [float(x)] for a decimal [x], and the bind of a decimal to a REAL
    column: the double nearest to it (numerator and denominator are below
    2^53 for the values of a NUMERIC(14,2) column, so the correctly
    rounded quotient is that double). *)
Definition to_float (q : Qc) : float :=
  PrimFloat.div (of_Z (Qnum q)) (of_Z (Zpos (Qden q))).

(** [n / d] rounded to the nearest integer, ties to the even one. *)
Definition round_half_even (n d : Z) : Z :=
  let q := (n / d)%Z in
  let r := (n mod d)%Z in
  match (2 * r ?= d)%Z with
  | Lt => q
  | Gt => (q + 1)%Z
  | Eq => if Z.even q then q else (q + 1)%Z
  end.

(** [Decimal("%.2f" % x)], in hundredths: what the result processor of a
    NUMERIC(14,2) column makes of the double SQLite returns.  The digits
    are those of the exact binary value of [x], rounded half to even. *)
Definition cents (x : float) : Z :=
  match Prim2SF x with
  | S754_finite s m e =>
      let n := (Zpos m * 100)%Z in
      let c := if (0 <=? e)%Z then (n * 2 ^ e)%Z else round_half_even n (2 ^ (- e)) in
      if s then (- c)%Z else c
  | _ => 0%Z
  end.

(** [float(x)] for a decimal of [c] hundredths. *)
Definition of_cents (c : Z) : float := PrimFloat.div (of_Z c) (of_Z 100).


(** SQL [SUM] over the doubles of a column, added in the order of the
    rows: NULL over no rows. *)
Definition sql_sum (xs : list float) : option float :=
  match xs with
  | [] => None
  | _ => Some (foldl PrimFloat.add zero xs)
  end.

(** [.scalar()] of [coalesce(sum(column), 0)]: the function takes the type
    of the column, so the value arrives as a two-digit decimal, here in
    hundredths. *)
Definition scalar (xs : list float) : Z :=
  match sql_sum xs with
  | Some total => cents total
  | None => 0%Z
  end.

(** [float(x or 0)] on that decimal. *)
Definition float_or_zero (c : Z) : float :=
  if decide (c = 0%Z) then zero else of_cents c.

(** [contract.percent_to_subsidiary or 0] on the Float column. *)
Definition percent_or_zero (p : option Qc) : float :=
  match p with
  | Some q => if PrimFloat.eqb (to_float q) zero then zero else to_float q
  | None => zero
  end.

Module ContractAgg.
Record t := mk { revenue : float; expenses : float; profit : float; subsidiary_share : float }.
End ContractAgg.

(** The doubles the two amount columns hold for a contract id. *)
Definition stored_revenues (d : DB) (cid : nat) : list float :=
  (λ r, to_float (Revenue.amount r)) <$> revenues_of d cid.

Definition stored_expenses (d : DB) (cid : nat) : list float :=
  (λ e, to_float (Expense.amount e)) <$> expenses_of d cid.

Definition calc_contract_aggregates (d : DB) (contract : Contract.t) : ContractAgg.t :=
  let total_revenue := float_or_zero (scalar (stored_revenues d (Contract.id contract))) in
  let total_expenses := float_or_zero (scalar (stored_expenses d (Contract.id contract))) in
  let profit := PrimFloat.sub total_revenue total_expenses in
  let subsidiary_share :=
    PrimFloat.div
      (PrimFloat.mul profit (percent_or_zero (Contract.percent_to_subsidiary contract)))
      (of_Z 100) in
  ContractAgg.mk total_revenue total_expenses profit subsidiary_share.









End Binary64.

(** ** The claims about the numbers, as they are worded *)



(** Sessions for the examples, from a fresh file: the default
    organisation, the client "Acme", the contract "Audit" of NexxusGovSec
    at the given percent, then the given revenues and the given expenses,
    recorded one by one through the finance form. *)
Definition ledger_fields (percent : Z) : contract_fields :=
  ContractFields "Audit" 0 0 (Qc_of_Z percent) None "signed" "".

Definition record_all (kind : record_type) (label : string) (amounts : list Qc) (d : DB)
  : DB :=
  foldl (λ d x, (finance_form d kind (Some label) (FinanceFields x "" jan1 "" 0 "" jan1)).1)
        d amounts.

Definition ledger_db (percent : Z) (received spent : list Qc) : DB :=
  let d1 := (bootstrap_default_org empty_db).1 in
  let d2 := (create_client d1 "Acme" "" "").1 in
  let d3 := (create_contract d2 (Some "NexxusGovSec") (Some "Acme")
                             (ledger_fields percent)).1 in
  record_all Expense_kind "1 - Audit (NexxusGovSec)" spent
             (record_all Revenue_kind "1 - Audit (NexxusGovSec)" received d3).

(** The contract row of these sessions. *)
Definition contract_at (percent : Z) : Contract.t :=
  Contract.mk 1 "Audit" 1 1 None None None (Some 0) (Some 0)
              (Some (Qc_of_Z percent)) "signed" "".

(** ** Consistency of a store *)

(** Every contract row points at a subsidiary row and at a client row. *)
Definition contracts_reference (d : DB) : Prop :=
  ∀ c, c ∈ contracts d →
    (∃ s, s ∈ subsidiaries d ∧ Subsidiary.id s = Contract.subsidiary_id c)
    ∧ (∃ x, x ∈ clients d ∧ Client.id x = Contract.client_id c).

(** Every row of the three ledgers points at a contract row. *)
Definition ledgers_reference (d : DB) : Prop :=
  (∀ r, r ∈ revenues d → references_contract d (Revenue.contract_id r))
  ∧ (∀ e, e ∈ expenses d → references_contract d (Expense.contract_id e))
  ∧ (∀ a, a ∈ equity_awards d → references_contract d (EquityAward.contract_id a)).

(** No two rows of a named table share their name. *)
Definition unique_names (d : DB) : Prop :=
  NoDup (Company.name <$> companies d)
  ∧ NoDup (Subsidiary.name <$> subsidiaries d)
  ∧ NoDup (Client.name <$> clients d).

(** No two rows of a table share their primary key. *)
Definition unique_ids (d : DB) : Prop :=
  NoDup (Company.id <$> companies d)
  ∧ NoDup (Subsidiary.id <$> subsidiaries d)
  ∧ NoDup (Client.id <$> clients d)
  ∧ NoDup (Contract.id <$> contracts d)
  ∧ NoDup (Expense.id <$> expenses d)
  ∧ NoDup (Revenue.id <$> revenues d)
  ∧ NoDup (EquityAward.id <$> equity_awards d).

Definition consistent (d : DB) : Prop :=
  subsidiaries_reference_companies d ∧ contracts_reference d ∧ ledgers_reference d
  ∧ unique_names d ∧ unique_ids d.

(** A second revenue day. *)
Definition feb2 : date := Date 2024 2 2.

Definition example_contract_fields : contract_fields :=
  ContractFields "Survey" (Qc_of_Z 1000) 0 (Qc_of_Z 40) None "prospect" "".

(** A short session from a fresh file: the default organisation, a
    client, a contract for it, and a first payment. *)
Definition session_db : DB :=
  let d1 := (bootstrap_default_org empty_db).1 in
  let d2 := (create_client d1 "Acme" "Jo" "jo@acme.test").1 in
  let d3 := (create_contract d2 (Some "NexxusGovSec") (Some "Acme")
                             example_contract_fields).1 in
  (finance_form d3 Revenue_kind (Some "1 - Survey (NexxusGovSec)")
                (FinanceFields (Qc_of_Z 250) "deposit" feb2 "" 0 "" feb2)).1.


(** * Properties of the rollups *)

Lemma foldl_Qcplus_acc (xs : list Qc) (a : Qc) :
  foldl Qcplus a xs = a + Qc_sum xs.
Proof.
  revert a. induction xs as [|x xs IH]; intros a; simpl.
  - ring.
  - rewrite IH. ring.
Qed.

Lemma or_zero_id (x : Qc) : or_zero x = x.
Proof. unfold or_zero. case_decide; congruence. Qed.

Lemma opt_or_zero_Some (x : Qc) : opt_or_zero (Some x) = x.
Proof. apply or_zero_id. Qed.

(** [SUM] then [COALESCE(_, 0)] then [or 0] is the plain sum. *)
Lemma coalesced_sum (xs : list Qc) :
  or_zero (coalesce (sql_sum xs) 0) = Qc_sum xs.
Proof.
  rewrite or_zero_id. destruct xs as [|x xs]; [done|].
  unfold sql_sum, coalesce. rewrite foldl_Qcplus_acc. ring.
Qed.

Lemma calc_revenue (d : DB) (c : Contract.t) :
  ContractAgg.revenue (calc_contract_aggregates d c)
  = Qc_sum (Revenue.amount <$> revenues_of d (Contract.id c)).
Proof. apply coalesced_sum. Qed.

Lemma calc_expenses (d : DB) (c : Contract.t) :
  ContractAgg.expenses (calc_contract_aggregates d c)
  = Qc_sum (Expense.amount <$> expenses_of d (Contract.id c)).
Proof. apply coalesced_sum. Qed.

Lemma calc_profit (d : DB) (c : Contract.t) :
  ContractAgg.profit (calc_contract_aggregates d c)
  = ContractAgg.revenue (calc_contract_aggregates d c)
    - ContractAgg.expenses (calc_contract_aggregates d c).
Proof. reflexivity. Qed.

(** ** The rollup of a contract in the numbers of the source *)





(** The sum does not survive either where an amount has more than two
    fractional digits: a single payment of 0.004 shows as revenue 0.0. *)
Example revenue_below_a_cent :
  Binary64.ContractAgg.revenue
    (Binary64.calc_contract_aggregates (ledger_db 100 [Q2Qc (4 # 1000)] []) (contract_at 100))
  = Binary64.zero
  ∧ Binary64.to_float (Q2Qc (4 # 1000)) ≠ Binary64.zero.
Proof. split; [reflexivity|]. vm_compute. discriminate. Qed.




(** ** Subsidiary and company rollups *)

Lemma subsidiary_loop (d : DB) (cs : list Contract.t) (acc : SubsidiaryAgg.t) :
  let step := λ agg c,
    let a := calc_contract_aggregates d c in
    SubsidiaryAgg.mk
      (SubsidiaryAgg.revenue agg + ContractAgg.revenue a)
      (SubsidiaryAgg.expenses agg + ContractAgg.expenses a)
      (SubsidiaryAgg.profit agg + ContractAgg.profit a)
      (SubsidiaryAgg.contracts agg) in
  foldl step acc cs
  = SubsidiaryAgg.mk
      (SubsidiaryAgg.revenue acc
       + Qc_sum ((λ c, ContractAgg.revenue (calc_contract_aggregates d c)) <$> cs))
      (SubsidiaryAgg.expenses acc
       + Qc_sum ((λ c, ContractAgg.expenses (calc_contract_aggregates d c)) <$> cs))
      (SubsidiaryAgg.profit acc
       + Qc_sum ((λ c, ContractAgg.profit (calc_contract_aggregates d c)) <$> cs))
      (SubsidiaryAgg.contracts acc).
Proof.
  intros step. revert acc.
  induction cs as [|c cs IH]; intros acc.
  - destruct acc; simpl. f_equal; ring.
  - cbn [foldl fmap list_fmap Qc_sum foldr]. rewrite IH.
    unfold step at 1 2 3 4. cbn [SubsidiaryAgg.revenue SubsidiaryAgg.expenses
      SubsidiaryAgg.profit SubsidiaryAgg.contracts].
    f_equal; unfold Qc_sum; ring.
Qed.

Lemma company_loop (d : DB) (subs : list Subsidiary.t) (acc : CompanyAgg.t) :
  let step := λ agg s,
    let a := aggregate_for_subsidiary d (Subsidiary.id s) in
    CompanyAgg.mk
      (CompanyAgg.revenue agg + SubsidiaryAgg.revenue a)
      (CompanyAgg.expenses agg + SubsidiaryAgg.expenses a)
      (CompanyAgg.profit agg + SubsidiaryAgg.profit a)
      (CompanyAgg.subsidiaries agg) in
  foldl step acc subs
  = CompanyAgg.mk
      (CompanyAgg.revenue acc
       + Qc_sum ((λ s, SubsidiaryAgg.revenue (aggregate_for_subsidiary d (Subsidiary.id s)))
                   <$> subs))
      (CompanyAgg.expenses acc
       + Qc_sum ((λ s, SubsidiaryAgg.expenses (aggregate_for_subsidiary d (Subsidiary.id s)))
                   <$> subs))
      (CompanyAgg.profit acc
       + Qc_sum ((λ s, SubsidiaryAgg.profit (aggregate_for_subsidiary d (Subsidiary.id s)))
                   <$> subs))
      (CompanyAgg.subsidiaries acc).
Proof.
  intros step. revert acc.
  induction subs as [|s subs IH]; intros acc.
  - destruct acc; simpl. f_equal; ring.
  - cbn [foldl fmap list_fmap Qc_sum foldr]. rewrite IH.
    unfold step at 1 2 3 4. cbn [CompanyAgg.revenue CompanyAgg.expenses
      CompanyAgg.profit CompanyAgg.subsidiaries].
    f_equal; unfold Qc_sum; ring.
Qed.



(** ** Rollups over nothing *)

Lemma filter_none {A} (P : A → Prop) `{!∀ x, Decision (P x)} (l : list A) :
  Forall (λ x, ¬ P x) l → filter P l = [].
Proof.
  induction 1 as [|x l Hx _ IH]; [done|].
  rewrite filter_cons. by destruct (decide (P x)).
Qed.

(** C5.  A contract, stored or not, whose id no Revenue row and no Expense
    row carries gets revenue 0, expenses 0, profit 0 and subsidiary share
    0 from [calc_contract_aggregates], which is a total function. *)
Theorem contract_aggregate_no_rows (d : DB) (c : Contract.t) :
  Forall (λ r, Revenue.contract_id r ≠ Contract.id c) (revenues d) →
  Forall (λ e, Expense.contract_id e ≠ Contract.id c) (expenses d) →
  calc_contract_aggregates d c = ContractAgg.mk 0 0 0 0.
Proof.
  intros Hr He. unfold calc_contract_aggregates, revenues_of, expenses_of.
  rewrite (filter_none _ _ Hr), (filter_none _ _ He). simpl.
  rewrite or_zero_id. f_equal; try ring.
  unfold Qcdiv. ring.
Qed.

Lemma contract_aggregate_no_rows_witness :
  calc_contract_aggregates example_db
    (Contract.mk 7 "Unbilled" 1 1 None None None None None (Some hundred) "prospect" "")
  = ContractAgg.mk 0 0 0 0.
Proof.
  apply contract_aggregate_no_rows; simpl; repeat constructor; discriminate.
Defined.

(** C10.  [aggregate_for_subsidiary] and [aggregate_for_company] are total
    functions.  For a subsidiary id that no contract carries, whether or
    not a Subsidiary row has it, the first returns revenue 0, expenses 0,
    profit 0 and contracts 0.  For a company id that no Company row has,
    in a store whose subsidiaries all point at a company row (every store
    the application reaches), the second returns revenue 0, expenses 0,
    profit 0 and subsidiaries 0. *)
Theorem rollup_of_unknown_id (d : DB) (subsidiary_id company_id : nat) :
  (Forall (λ c, Contract.subsidiary_id c ≠ subsidiary_id) (contracts d) →
   aggregate_for_subsidiary d subsidiary_id = SubsidiaryAgg.mk 0 0 0 0)
  ∧ (subsidiaries_reference_companies d →
     Forall (λ c, Company.id c ≠ company_id) (companies d) →
     aggregate_for_company d company_id = CompanyAgg.mk 0 0 0 0).
Proof.
  split.
  - intros Hc. unfold aggregate_for_subsidiary, contracts_of.
    by rewrite (filter_none _ _ Hc).
  - intros Hfk Hco. unfold aggregate_for_company, subsidiaries_of.
    rewrite filter_none; [done|].
    apply Forall_forall. intros s Hs Heq.
    destruct (Hfk s Hs) as (c & Hin & Hid).
    rewrite Forall_forall in Hco. apply (Hco c Hin). congruence.
Qed.

Lemma rollup_of_unknown_id_witness :
  aggregate_for_subsidiary example_db 5 = SubsidiaryAgg.mk 0 0 0 0
  ∧ aggregate_for_company example_db 9 = CompanyAgg.mk 0 0 0 0.
Proof.
  destruct (rollup_of_unknown_id example_db 5 9) as [Hsub Hco]. split.
  - apply Hsub. simpl. repeat constructor; discriminate.
  - apply Hco.
    + intros s Hs. exists (Company.mk 1 "BBH" true). split.
      * simpl. apply list_elem_of_singleton. reflexivity.
      * simpl in Hs. apply list_elem_of_singleton in Hs. subst s. reflexivity.
    + simpl. repeat constructor; discriminate.
Defined.

(** * Properties of the handlers *)

(** ** Lookups by name *)

Lemma head_filter_None {A} (P : A → Prop) `{!∀ x, Decision (P x)} (l : list A) :
  Forall (λ x, ¬ P x) l → head (filter P l) = None.
Proof. intros Hall. by rewrite (filter_none _ _ Hall). Qed.

Lemma head_filter_Some {A} (P : A → Prop) `{!∀ x, Decision (P x)} (l : list A) (x : A) :
  x ∈ l → P x → ∃ y, head (filter P l) = Some y ∧ P y.
Proof.
  intros Hin HP.
  assert (Hf : x ∈ filter P l) by (apply list_elem_of_filter; done).
  destruct (filter P l) as [|y ys] eqn:E.
  - by apply not_elem_of_nil in Hf.
  - exists y. split; [done|].
    assert (Hy : y ∈ filter P l) by (rewrite E; left).
    by apply list_elem_of_filter in Hy as [? _].
Qed.

Lemma not_named {A} (f : A → string) (n : string) (l : list A) :
  n ∉ f <$> l → Forall (λ x, f x ≠ n) l.
Proof.
  intros Hn. apply Forall_forall. intros x Hx Heq.
  apply Hn. apply list_elem_of_fmap. by exists x.
Qed.

Lemma named {A} (f : A → string) (n : string) (l : list A) :
  n ∈ f <$> l → ∃ x, x ∈ l ∧ f x = n.
Proof. intros (x & -> & Hx)%list_elem_of_fmap. by exists x. Qed.

(** ** The default organisation *)

Lemma ensure_subsidiary_companies (pid : nat) (d d' : DB) (n : string) :
  ensure_subsidiary pid d n = Ok d' → companies d' = companies d.
Proof.
  unfold ensure_subsidiary, add_subsidiary.
  destruct (subsidiary_by_name d n); [by intros [= ->]|].
  case_decide; simpl; [done|]. by intros [= <-].
Qed.

Lemma for_each_ensure_companies (pid : nat) (names : list string) (d d' : DB) :
  for_each (ensure_subsidiary pid) d names = Ok d' → companies d' = companies d.
Proof.
  revert d. induction names as [|n names IH]; intros d; simpl.
  - by intros [= ->].
  - destruct (ensure_subsidiary pid d n) as [d1|e] eqn:E; simpl; [|done].
    intros H. rewrite (IH _ H). by eapply ensure_subsidiary_companies.
Qed.

(** Without a company called "BBH" the handler tries to insert "Black Bear
    Holdings", whatever the table already holds. *)
Lemma bootstrap_without_BBH (d : DB) :
  "BBH" ∉ Company.name <$> companies d →
  "Black Bear Holdings" ∈ Company.name <$> companies d →
  bootstrap_default_org d = (d, Raise (IntegrityError "companies.name")).
Proof.
  intros Hno Hin. unfold bootstrap_default_org, company_by_name.
  rewrite head_filter_None by (by apply not_named).
  unfold add_company. by rewrite decide_True.
Qed.

Lemma bootstrap_leaves_full_name (d : DB) :
  "BBH" ∉ Company.name <$> companies d →
  ("BBH" ∉ Company.name <$> companies ((bootstrap_default_org d).1))
  ∧ ("Black Bear Holdings" ∈ Company.name <$> companies ((bootstrap_default_org d).1)).
Proof.
  intros Hno.
  destruct (decide ("Black Bear Holdings" ∈ Company.name <$> companies d)) as [Hin|Hout].
  { rewrite bootstrap_without_BBH; done. }
  unfold bootstrap_default_org, company_by_name.
  rewrite head_filter_None by (by apply not_named).
  unfold add_company. rewrite decide_False by done.
  set (row := Company.mk _ _ _). set (d1 := mkDB _ _ _ _ _ _ _).
  assert (Hd1 : Company.name <$> companies d1
                = (Company.name <$> companies d) ++ ["Black Bear Holdings"]).
  { unfold d1. simpl. by rewrite fmap_app. }
  assert (H1 : "BBH" ∉ Company.name <$> companies d1).
  { rewrite Hd1. intros [?|Hx%list_elem_of_singleton]%elem_of_app; [done|discriminate]. }
  assert (H2 : "Black Bear Holdings" ∈ Company.name <$> companies d1).
  { rewrite Hd1. apply elem_of_app. right. by apply list_elem_of_singleton. }
  destruct (for_each _ d1 _) as [d2|e] eqn:E; simpl; [|done].
  by rewrite (for_each_ensure_companies _ _ _ _ E).
Qed.

(** C2 (the code at the failing input).  From any store without a company
    called "BBH", the empty one among them, pressing the button twice ends
    the second run in the IntegrityError of the UNIQUE constraint on
    companies.name: the parent is looked up as "BBH" and created as "Black
    Bear Holdings". *)
Theorem bootstrap_second_call_raises (d : DB) :
  "BBH" ∉ Company.name <$> companies d →
  (bootstrap_default_org (bootstrap_default_org d).1).2
  = Raise (IntegrityError "companies.name").
Proof.
  intros Hno. destruct (bootstrap_leaves_full_name d Hno) as [H1 H2].
  by rewrite bootstrap_without_BBH.
Qed.

Lemma bootstrap_second_call_raises_witness :
  (bootstrap_default_org (bootstrap_default_org empty_db).1).2
  = Raise (IntegrityError "companies.name").
Proof.
  apply bootstrap_second_call_raises. simpl. apply not_elem_of_nil.
Defined.

(** The first run on the empty store does create the organisation. *)
Example bootstrap_first_call :
  bootstrap_default_org empty_db
  = (mkDB [Company.mk 1 "Black Bear Holdings" true]
          [Subsidiary.mk 1 "NexxusGovSec" 1; Subsidiary.mk 2 "3SixMedia" 1]
          [] [] [] [] [],
     Ok (success "Created BBH, NGS, and 3SM (if missing).")).
Proof. reflexivity. Qed.

(** With a company called "BBH" in the store the handler is idempotent. *)
Example bootstrap_with_BBH_twice :
  let d := mkDB [Company.mk 1 "BBH" true] [] [] [] [] [] [] in
  bootstrap_default_org (bootstrap_default_org d).1 = bootstrap_default_org d.
Proof. reflexivity. Qed.

(** ** Clients and subsidiaries *)

Lemma client_by_name_None (d : DB) (n : string) :
  n ∉ Client.name <$> clients d → client_by_name d n = None.
Proof. intros Hn. apply head_filter_None. by apply not_named. Qed.

Lemma client_by_name_Some (d : DB) (n : string) :
  n ∈ Client.name <$> clients d → ∃ c, client_by_name d n = Some c.
Proof.
  intros (c & Hin & Hc)%named.
  destruct (head_filter_Some (λ c, Client.name c = n) _ c Hin Hc) as (y & Hy & _).
  by exists y.
Qed.

Lemma subsidiary_by_name_None (d : DB) (n : string) :
  n ∉ Subsidiary.name <$> subsidiaries d → subsidiary_by_name d n = None.
Proof. intros Hn. apply head_filter_None. by apply not_named. Qed.

Lemma subsidiary_by_name_Some (d : DB) (n : string) :
  n ∈ Subsidiary.name <$> subsidiaries d → ∃ s, subsidiary_by_name d n = Some s.
Proof.
  intros (s & Hin & Hs)%named.
  destruct (head_filter_Some (λ s, Subsidiary.name s = n) _ s Hin Hs) as (y & Hy & _).
  by exists y.
Qed.

(** C6 (as stated, refuted).  A name that no client has is not always
    inserted: the empty name is turned away by the "required" guard. *)
Lemma create_client_empty_name_not_inserted :
  ¬ (∀ (d : DB) (cname contact email : string),
       cname ∉ Client.name <$> clients d →
       ∃ row, clients ((create_client d cname contact email).1) = clients d ++ [row]).
Proof.
  intros H. destruct (H empty_db "" "" "") as [row Hrow].
  - simpl. apply not_elem_of_nil.
  - simpl in Hrow. discriminate.
Qed.

(** C6 (amended).  A client with a non-empty name, and a subsidiary with a
    non-empty name and a parent chosen among the companies: when an entity
    of the same type has exactly that name the handler answers with the
    "exists" warning and leaves the store as it was; otherwise it appends
    the new row, with the next id and the given fields, and reports
    success.  An empty name, and a subsidiary without a parent to choose,
    are answered with the "required" warning and the store stays as it
    was. *)
Theorem create_rejects_duplicate_names (d : DB) (cname contact email sname : string) :
  (cname ≠ "" →
   (cname ∈ Client.name <$> clients d →
      create_client d cname contact email = (d, Ok (warning "Client exists")))
   ∧ (cname ∉ Client.name <$> clients d →
      create_client d cname contact email
      = (mkDB (companies d) (subsidiaries d)
              (clients d ++ [Client.mk (next_id (Client.id <$> clients d)) cname contact email])
              (contracts d) (expenses d) (revenues d) (equity_awards d),
         Ok (success ("Created client: " +:+ cname)))))
  ∧ (∀ (choice : string) (pid : nat),
       sname ≠ "" → choice ≠ "" → comp_options d !! choice = Some pid →
       (sname ∈ Subsidiary.name <$> subsidiaries d →
          create_subsidiary d sname (Some choice) = (d, Ok (warning "Subsidiary exists")))
       ∧ (sname ∉ Subsidiary.name <$> subsidiaries d →
          create_subsidiary d sname (Some choice)
          = (mkDB (companies d)
                  (subsidiaries d
                   ++ [Subsidiary.mk (next_id (Subsidiary.id <$> subsidiaries d)) sname pid])
                  (clients d) (contracts d) (expenses d) (revenues d) (equity_awards d),
             Ok (success ("Created subsidiary " +:+ sname +:+ " under " +:+ choice)))))
  ∧ create_client d "" contact email = (d, Ok (warning "Client name required"))
  ∧ (∀ choice : option string,
       create_subsidiary d "" choice
       = (d, Ok (warning "Subsidiary name and parent required")))
  ∧ create_subsidiary d sname None
    = (d, Ok (warning "Subsidiary name and parent required")).
Proof.
  split; [|split; [|split; [done|split; [|done]]]].
  - intros Hc. split.
    + intros Hdup. unfold create_client. rewrite decide_False by done.
      destruct (client_by_name_Some d cname Hdup) as [c ->]. done.
    + intros Hnew. unfold create_client. rewrite decide_False by done.
      rewrite client_by_name_None by done.
      unfold add_client. by rewrite decide_False.
  - intros choice pid Hs Hch Hpid. split.
    + intros Hdup. unfold create_subsidiary.
      rewrite decide_False by (intros [?|?]; done). rewrite Hpid.
      destruct (subsidiary_by_name_Some d sname Hdup) as [s ->]. done.
    + intros Hnew. unfold create_subsidiary.
      rewrite decide_False by (intros [?|?]; done). rewrite Hpid.
      rewrite subsidiary_by_name_None by done.
      unfold add_subsidiary. by rewrite decide_False.
  - intros [choice|]; [|done]. unfold create_subsidiary.
    rewrite decide_True; [done|by left].
Qed.

Lemma create_rejects_duplicate_names_witness :
  create_client session_db "Acme" "Jo" "jo@acme.test"
    = (session_db, Ok (warning "Client exists"))
  ∧ create_subsidiary session_db "NexxusGovSec" (Some "Black Bear Holdings")
    = (session_db, Ok (warning "Subsidiary exists"))
  ∧ clients ((create_client empty_db "Borealis" "" "").1) = [Client.mk 1 "Borealis" "" ""]
  ∧ subsidiaries ((create_subsidiary session_db "Fourth Meridian"
                                     (Some "Black Bear Holdings")).1)
    = [Subsidiary.mk 1 "NexxusGovSec" 1; Subsidiary.mk 2 "3SixMedia" 1;
       Subsidiary.mk 3 "Fourth Meridian" 1].
Proof.
  assert (Hpid : comp_options session_db !! "Black Bear Holdings" = Some 1%nat)
    by (vm_compute; reflexivity).
  destruct (create_rejects_duplicate_names session_db "Acme" "Jo" "jo@acme.test"
              "NexxusGovSec") as (Hc & Hs & _).
  destruct (create_rejects_duplicate_names empty_db "Borealis" "" "" "") as (Hc' & _).
  destruct (create_rejects_duplicate_names session_db "" "" "" "Fourth Meridian")
    as (_ & Hs' & _).
  destruct (Hc ltac:(discriminate)) as [Hdup _].
  destruct (Hs "Black Bear Holdings" 1%nat ltac:(discriminate) ltac:(discriminate) Hpid)
    as [Hsdup _].
  destruct (Hc' ltac:(discriminate)) as [_ Hnew].
  destruct (Hs' "Black Bear Holdings" 1%nat ltac:(discriminate) ltac:(discriminate) Hpid)
    as [_ Hsnew].
  split; [apply Hdup; vm_compute; left|].
  split; [apply Hsdup; vm_compute; left|].
  split.
  - rewrite Hnew; [reflexivity|]. simpl. apply not_elem_of_nil.
  - rewrite Hsnew; [reflexivity|]. vm_compute. intros Hin.
    apply elem_of_cons in Hin as [Heq|Hin]; [discriminate|].
    apply list_elem_of_singleton in Hin. discriminate.
Defined.

(** ** The finance form *)

(** Every id in the select box's map is the id of a listed contract. *)
Lemma contract_map_of_ids (d : DB) (cs : list Contract.t) (m m' : gmap string nat)
    (label : string) (cid : nat) :
  contract_map_of d m cs = Ok m' →
  m' !! label = Some cid →
  m !! label = Some cid ∨ ∃ c, c ∈ cs ∧ Contract.id c = cid.
Proof.
  revert m. induction cs as [|c cs IH]; intros m; simpl.
  - intros [= ->] Hl. by left.
  - destruct (contract_label d c) as [l|e]; simpl; [|done].
    intros Hm Hl. destruct (IH _ Hm Hl) as [Hins|(c' & Hin & Hid)].
    + destruct (decide (l = label)) as [->|Hne].
      * rewrite lookup_insert_eq in Hins. injection Hins as <-.
        right. exists c. split; [left|done].
      * rewrite lookup_insert_ne in Hins by done. by left.
    + right. exists c'. split; [by right|done].
Qed.

Lemma contract_map_ids (d : DB) (m : gmap string nat) (label : string) (cid : nat) :
  contract_map d = Ok m → m !! label = Some cid → references_contract d cid.
Proof.
  intros Hm Hl. destruct (contract_map_of_ids d _ _ _ _ _ Hm Hl) as [Hempty|Hc]; [|done].
  by rewrite lookup_empty in Hempty.
Qed.

(** A run of the form leaves the store alone or appends one row for a
    stored contract. *)
Lemma finance_form_store (d : DB) (kind : record_type) (selected : option string)
    (f : finance_fields) :
  (finance_form d kind selected f).1 = d
  ∨ one_row_recorded d ((finance_form d kind selected f).1).
Proof.
  unfold finance_form.
  destruct (contract_map d) as [m|e] eqn:Hm; [|by left].
  destruct selected as [label|]; [|by left].
  case_decide; [by left|].
  destruct (m !! label) as [cid|] eqn:Hl; [|by left].
  right. pose proof (contract_map_ids d m label cid Hm Hl) as Href.
  unfold one_row_recorded.
  destruct kind; simpl; repeat split.
  - left. by eexists.
  - right. left. by eexists.
  - right. right. by eexists.
Qed.



(** X21.  A run of the finance form changes the store by at most one
    appended Revenue, Expense or EquityAward row, and that row carries the
    id of a stored contract; a selection that leads to no contract leaves
    every table as it was; with nothing selected the run ends without a
    message and without an error. *)
Theorem finance_form_records_existing_contract
    (d : DB) (kind : record_type) (selected : option string) (f : finance_fields) :
  (¬ resolves d selected → (finance_form d kind selected f).1 = d)
  ∧ ((finance_form d kind selected f).1 = d
     ∨ one_row_recorded d ((finance_form d kind selected f).1))
  ∧ (∀ m, contract_map d = Ok m → finance_form d kind None f = (d, Ok None)).
Proof.
  split; [|split].
  - unfold finance_form.
    intros Hno. destruct (contract_map d) as [m|e] eqn:Hm; [|done].
    destruct selected as [label|]; [|done].
    case_decide; [done|].
    destruct (m !! label) as [cid|] eqn:Hl; [|done].
    exfalso. apply Hno. by exists label, m, cid.
  - apply finance_form_store.
  - unfold finance_form. intros m ->. done.
Qed.

Lemma finance_form_records_existing_contract_witness :
  one_row_recorded session_db
    ((finance_form session_db Expense_kind (Some "1 - Survey (NexxusGovSec)") no_fields).1)
  ∧ finance_form session_db Expense_kind None no_fields = (session_db, Ok None)
  ∧ (finance_form empty_db Expense_kind (Some "1 - Survey (NexxusGovSec)") no_fields).1
    = empty_db.
Proof.
  destruct (finance_form_records_existing_contract session_db Expense_kind
              (Some "1 - Survey (NexxusGovSec)") no_fields) as (_ & Hrow & Hnone).
  destruct (finance_form_records_existing_contract empty_db Expense_kind
              (Some "1 - Survey (NexxusGovSec)") no_fields) as (Hsame & _ & _).
  split; [|split].
  - destruct Hrow as [Heq|Hrow]; [|exact Hrow].
    apply (f_equal (λ s, length (expenses s))) in Heq. vm_compute in Heq. discriminate.
  - apply (Hnone {["1 - Survey (NexxusGovSec)" := 1%nat]}). vm_compute. reflexivity.
  - apply Hsame. intros (label & m & cid & _ & Hm & Hl).
    unfold contract_map in Hm. simpl in Hm. injection Hm as <-.
    rewrite lookup_empty in Hl. discriminate.
Defined.

(** ** The export *)

Lemma mapM_result_Forall2 {A B} (f : A → result B) (l : list A) (k : list B) :
  mapM f l = Ok k → Forall2 (λ x y, f x = Ok y) l k.
Proof.
  revert k. induction l as [|x l IH]; intros k; simpl.
  - intros [= <-]. constructor.
  - destruct (f x) as [y|e] eqn:Hx; simpl; [|done].
    destruct (mapM f l) as [ys|e]; simpl; [|done].
    intros [= <-]. constructor; [done|]. by apply IH.
Qed.

Lemma export_row_keys (d : DB) (c : Contract.t) (row : list (string * cell)) :
  export_row d c = Ok row → row.*1 = export_columns.
Proof.
  unfold export_row.
  destruct (subsidiary_name_of d c); simpl; [|done].
  destruct (client_name_of d c); simpl; [|done].
  by intros [= <-].
Qed.

(** With at least one contract the export starts with the eleven column
    labels in their fixed order and has one line per contract after it;
    the signed date is the ISO date, or empty. *)
Lemma export_with_contracts (d : DB) (lines : list (list cell)) :
  contracts d ≠ [] →
  export_contracts_csv d = Ok lines →
  ∃ body, lines = (str_cell <$> export_columns) :: body
          ∧ Forall2 (λ c line, ∃ row, export_row d c = Ok row ∧ line = row.*2
                               ∧ line !! 7%nat
                                 = Some (str_cell (match Contract.signed_date c with
                                                   | Some s => isoformat s
                                                   | None => ""
                                                   end)))
                    (contracts d) body.
Proof.
  intros Hne. unfold export_contracts_csv.
  destruct (mapM (export_row d) (contracts d)) as [rows|e] eqn:Hrows; simpl; [|done].
  intros [= <-]. apply mapM_result_Forall2 in Hrows.
  exists ((λ r, r.*2) <$> rows). split.
  - unfold to_csv, DataFrame_of. simpl. f_equal.
    destruct Hrows as [|c row cs rows' Hrow _]; [done|].
    by rewrite (export_row_keys _ _ _ Hrow).
  - apply Forall2_fmap_r. eapply Forall2_impl; [exact Hrows|].
    intros c row Hrow. exists row. repeat split; [done|].
    unfold export_row in Hrow.
    destruct (subsidiary_name_of d c); simpl in Hrow; [|done].
    destruct (client_name_of d c); simpl in Hrow; [|done].
    by injection Hrow as <-.
Qed.

(** C8 (the code at the failing input).  With no contract in the store the
    export is a single line without any cell: the frame built from no rows
    has no columns, so the line of labels is empty and the header of the
    export is missing. *)
Theorem export_without_contracts (d : DB) :
  contracts d = [] →
  export_contracts_csv d = Ok [[]]
  ∧ export_contracts_csv d ≠ Ok [str_cell <$> export_columns].
Proof.
  intros Hnone. unfold export_contracts_csv. rewrite Hnone. simpl. split; [done|].
  intros [=].
Qed.

Lemma export_without_contracts_witness :
  export_contracts_csv empty_db = Ok [[]]
  ∧ export_contracts_csv empty_db ≠ Ok [str_cell <$> export_columns].
Proof. apply export_without_contracts. reflexivity. Defined.

(** ** The forms keep subsidiaries attached to companies *)

Lemma comp_options_ids_acc (cs : list Company.t) (m : gmap string nat) (n : string) (pid : nat) :
  foldl (λ m c, <[Company.name c := Company.id c]> m) m cs !! n = Some pid →
  m !! n = Some pid ∨ ∃ c, c ∈ cs ∧ Company.id c = pid.
Proof.
  revert m. induction cs as [|c cs IH]; intros m; simpl; [by left|].
  intros Hl. destruct (IH _ Hl) as [Hins|(c' & Hin & Hid)].
  - destruct (decide (Company.name c = n)) as [<-|Hne].
    + rewrite lookup_insert_eq in Hins. injection Hins as <-.
      right. exists c. split; [left|done].
    + rewrite lookup_insert_ne in Hins by done. by left.
  - right. exists c'. split; [by right|done].
Qed.

Lemma comp_options_ids (d : DB) (n : string) (pid : nat) :
  comp_options d !! n = Some pid → ∃ c, c ∈ companies d ∧ Company.id c = pid.
Proof.
  intros Hl. destruct (comp_options_ids_acc _ _ _ _ Hl) as [Hempty|Hc]; [|done].
  by rewrite lookup_empty in Hempty.
Qed.

Lemma create_subsidiary_keeps_reference (d : DB) (sname : string) (choice : option string) :
  subsidiaries_reference_companies d →
  subsidiaries_reference_companies ((create_subsidiary d sname choice).1).
Proof.
  intros Hfk. unfold create_subsidiary.
  destruct choice as [choice|]; [|done].
  case_decide; [done|].
  destruct (comp_options d !! choice) as [pid|] eqn:Hpid; [|done].
  destruct (subsidiary_by_name d sname); [done|].
  unfold add_subsidiary. case_decide; [done|]. simpl.
  intros s [Hs|Hs%list_elem_of_singleton]%elem_of_app; simpl.
  - by apply Hfk.
  - subst s. simpl. by apply comp_options_ids in Hpid.
Qed.

Lemma create_client_keeps_reference (d : DB) (cname contact email : string) :
  subsidiaries_reference_companies d →
  subsidiaries_reference_companies ((create_client d cname contact email).1).
Proof.
  intros Hfk. unfold create_client.
  case_decide; [done|].
  destruct (client_by_name d cname); [done|].
  unfold add_client. case_decide; done.
Qed.

Lemma finance_form_keeps_reference (d : DB) (kind : record_type) (selected : option string)
    (f : finance_fields) :
  subsidiaries_reference_companies d →
  subsidiaries_reference_companies ((finance_form d kind selected f).1).
Proof.
  intros Hfk.
  destruct (finance_form_store d kind selected f) as [->|(Hco & Hsub & _)]; [done|].
  unfold subsidiaries_reference_companies. by rewrite Hco, Hsub.
Qed.

Lemma for_each_ensure_reference (pid : nat) (names : list string) (d d' : DB) :
  (∃ c, c ∈ companies d ∧ Company.id c = pid) →
  subsidiaries_reference_companies d →
  for_each (ensure_subsidiary pid) d names = Ok d' →
  subsidiaries_reference_companies d'.
Proof.
  revert d. induction names as [|n names IH]; intros d Hp Hfk; simpl.
  - by intros [= <-].
  - destruct (ensure_subsidiary pid d n) as [d1|e] eqn:E; simpl; [|done].
    apply IH.
    + by rewrite (ensure_subsidiary_companies _ _ _ _ E).
    + unfold ensure_subsidiary, add_subsidiary in E.
      destruct (subsidiary_by_name d n); [by injection E as <-|].
      case_decide; simpl in E; [done|]. injection E as <-.
      intros s [Hs|Hs%list_elem_of_singleton]%elem_of_app; simpl.
      * by apply Hfk.
      * by subst s.
Qed.

Lemma bootstrap_keeps_reference (d : DB) :
  subsidiaries_reference_companies d →
  subsidiaries_reference_companies ((bootstrap_default_org d).1).
Proof.
  intros Hfk. unfold bootstrap_default_org.
  assert (Hloop : ∀ p d1, p ∈ companies d1 → subsidiaries_reference_companies d1 →
            subsidiaries_reference_companies
              (match for_each (ensure_subsidiary (Company.id p)) d1
                       ["NexxusGovSec"; "3SixMedia"] with
               | Raise e => (d1, Raise e)
               | Ok d2 => (d2, Ok (success "Created BBH, NGS, and 3SM (if missing)."))
               end).1).
  { intros p d1 Hp H1.
    destruct (for_each _ d1 _) as [d2|e] eqn:E; simpl; [|done].
    eapply for_each_ensure_reference; [|exact H1|exact E]. by exists p. }
  destruct (company_by_name d "BBH") as [p|] eqn:Hp.
  - apply Hloop; [|done]. unfold company_by_name in Hp.
    apply head_Some_elem_of in Hp. by apply list_elem_of_filter in Hp as [_ ?].
  - unfold add_company. case_decide; [done|]. apply Hloop.
    + simpl. apply elem_of_app. right. left.
    + intros s Hs. destruct (Hfk s Hs) as (c & Hc & Hid).
      exists c. split; [|done]. simpl. apply elem_of_app. by left.
Qed.

Lemma create_contract_keeps_reference (d : DB) (sub_choice client_choice : option string)
    (f : contract_fields) :
  subsidiaries_reference_companies d →
  subsidiaries_reference_companies ((create_contract d sub_choice client_choice f).1).
Proof.
  intros Hfk. unfold create_contract.
  destruct sub_choice as [sc|], client_choice as [cc|]; try done.
  case_decide; [done|].
  destruct (subs_options d !! sc); [|done].
  by destruct (clients_options d !! cc).
Qed.

(** Whatever the user does, every subsidiary of the store stays attached
    to a company of the store. *)
Lemma reachable_reference (d : DB) :
  reachable d → subsidiaries_reference_companies d.
Proof.
  unfold reachable. intros Hr.
  eapply (rtc_ind_r (λ s, subsidiaries_reference_companies s)); [| |exact Hr].
  - intros s Hs. simpl in Hs. by apply not_elem_of_nil in Hs.
  - intros d1 d2 _ Hstep IH. destruct Hstep.
    + by apply bootstrap_keeps_reference.
    + by apply create_client_keeps_reference.
    + by apply create_subsidiary_keeps_reference.
    + by apply create_contract_keeps_reference.
    + by apply finance_form_keeps_reference.
    + intros s Hs. simpl in Hs. by apply not_elem_of_nil in Hs.
Qed.

(** * Further properties of the rollups *)

Lemma Qc_sum_app (xs ys : list Qc) : Qc_sum (xs ++ ys) = Qc_sum xs + Qc_sum ys.
Proof.
  induction xs as [|x xs IH]; simpl; [ring|]. rewrite IH. ring.
Qed.

Lemma Qc_sum_perm (xs ys : list Qc) : xs ≡ₚ ys → Qc_sum xs = Qc_sum ys.
Proof.
  induction 1 as [|x xs ys _ IH|x y xs|xs ys zs _ IH1 _ IH2]; simpl.
  - done.
  - by rewrite IH.
  - ring.
  - by rewrite IH1.
Qed.

Lemma Qc_sum_cons (x : Qc) (xs : list Qc) : Qc_sum (x :: xs) = x + Qc_sum xs.
Proof. reflexivity. Qed.

Lemma Qc_sum_nil : Qc_sum [] = 0.
Proof. reflexivity. Qed.

(** Push sums through the constructors of their lists, then normalise. *)
Ltac sum_ring :=
  rewrite ?fmap_cons, ?fmap_nil, ?Qc_sum_cons, ?Qc_sum_nil; cbn [fst snd]; ring.

Lemma Qc_sum_minus {A} (f g : A → Qc) (l : list A) :
  Qc_sum ((λ x, f x - g x) <$> l) = Qc_sum (f <$> l) - Qc_sum (g <$> l).
Proof.
  induction l as [|x l IH]; [simpl; ring|].
  rewrite !fmap_cons, !Qc_sum_cons, IH. ring.
Qed.

Lemma Qc_sum_plus {A} (f g : A → Qc) (l : list A) :
  Qc_sum ((λ x, f x + g x) <$> l) = Qc_sum (f <$> l) + Qc_sum (g <$> l).
Proof.
  induction l as [|x l IH]; [simpl; ring|].
  rewrite !fmap_cons, !Qc_sum_cons, IH. ring.
Qed.

Lemma Qc_sum_zero {A} (l : list A) : Qc_sum ((λ _, 0) <$> l) = 0.
Proof.
  induction l as [|x l IH]; [done|].
  rewrite fmap_cons, Qc_sum_cons, IH. ring.
Qed.

Lemma Qc_sum_ext {A} (f g : A → Qc) (l : list A) :
  (∀ x, x ∈ l → f x = g x) → Qc_sum (f <$> l) = Qc_sum (g <$> l).
Proof.
  induction l as [|x l IH]; intros Hfg; [done|].
  rewrite !fmap_cons, !Qc_sum_cons, (Hfg x) by left. rewrite IH; [done|].
  intros y Hy. apply Hfg. by right.
Qed.

Lemma subsidiary_fields (d : DB) (s : nat) :
  aggregate_for_subsidiary d s
  = SubsidiaryAgg.mk
      (Qc_sum ((λ c, ContractAgg.revenue (calc_contract_aggregates d c)) <$> contracts_of d s))
      (Qc_sum ((λ c, ContractAgg.expenses (calc_contract_aggregates d c)) <$> contracts_of d s))
      (Qc_sum ((λ c, ContractAgg.profit (calc_contract_aggregates d c)) <$> contracts_of d s))
      (length (contracts_of d s)).
Proof.
  unfold aggregate_for_subsidiary. rewrite subsidiary_loop.
  cbn [SubsidiaryAgg.revenue SubsidiaryAgg.expenses SubsidiaryAgg.profit
       SubsidiaryAgg.contracts].
  f_equal; ring.
Qed.

Lemma company_fields (d : DB) (co : nat) :
  aggregate_for_company d co
  = CompanyAgg.mk
      (Qc_sum ((λ s, SubsidiaryAgg.revenue (aggregate_for_subsidiary d (Subsidiary.id s)))
                 <$> subsidiaries_of d co))
      (Qc_sum ((λ s, SubsidiaryAgg.expenses (aggregate_for_subsidiary d (Subsidiary.id s)))
                 <$> subsidiaries_of d co))
      (Qc_sum ((λ s, SubsidiaryAgg.profit (aggregate_for_subsidiary d (Subsidiary.id s)))
                 <$> subsidiaries_of d co))
      (length (subsidiaries_of d co)).
Proof.
  unfold aggregate_for_company. rewrite company_loop.
  cbn [CompanyAgg.revenue CompanyAgg.expenses CompanyAgg.profit CompanyAgg.subsidiaries].
  f_equal; ring.
Qed.

Lemma subsidiary_profit (d : DB) (s : nat) :
  SubsidiaryAgg.profit (aggregate_for_subsidiary d s)
  = SubsidiaryAgg.revenue (aggregate_for_subsidiary d s)
    - SubsidiaryAgg.expenses (aggregate_for_subsidiary d s).
Proof.
  rewrite subsidiary_fields.
  cbn [SubsidiaryAgg.revenue SubsidiaryAgg.expenses SubsidiaryAgg.profit].
  rewrite <- Qc_sum_minus. done.
Qed.

(** * Consistency of every store the application reaches *)

Lemma next_id_fresh (ids : list nat) : next_id ids ∉ ids.
Proof. apply max_list_not_elem_of_gt. unfold next_id. lia. Qed.

Lemma NoDup_fmap_snoc {A B} (f : A → B) (l : list A) (x : A) :
  NoDup (f <$> l) → f x ∉ f <$> l → NoDup (f <$> l ++ [x]).
Proof.
  intros Hl Hx. rewrite fmap_app. apply NoDup_app. split; [done|]. split.
  - intros y Hy [->|?%not_elem_of_nil]%elem_of_cons; done.
  - apply NoDup_singleton.
Qed.

Lemma grow_exists {A} (P : A → Prop) (l k : list A) :
  (∃ x, x ∈ l ∧ P x) → ∃ x, x ∈ l ++ k ∧ P x.
Proof. intros (x & Hx & HP). exists x. split; [|done]. apply elem_of_app. by left. Qed.

Lemma snoc_forall {A} (P : A → Prop) (l : list A) (y : A) :
  (∀ x, x ∈ l → P x) → P y → ∀ x, x ∈ l ++ [y] → P x.
Proof.
  intros Hl Hy x [?|Hx%list_elem_of_singleton]%elem_of_app; [by apply Hl|by subst].
Qed.

(** Unfold the parts of [consistent] down to the tables. *)
Ltac open_store :=
  unfold consistent, unique_ids, unique_names, ledgers_reference, contracts_reference,
    subsidiaries_reference_companies, references_contract in *;
  cbn [companies subsidiaries clients contracts expenses revenues equity_awards] in *.

Ltac split_store :=
  intros (Hsc & Hcr & (Hr & He & Ha) & (Hn1 & Hn2 & Hn3)
          & (Hi1 & Hi2 & Hi3 & Hi4 & Hi5 & Hi6 & Hi7));
  (split; [|split; [|split; [split; [|split]|split; [split; [|split]|
     split; [|split; [|split; [|split; [|split; [|split]]]]]]]]]);
  try assumption.

Lemma add_company_consistent (d d' : DB) (n : string) (p : bool) (row : Company.t) :
  add_company d n p = Ok (row, d') → consistent d → consistent d'.
Proof.
  unfold add_company. case_decide as Hn; [done|]. intros [= <- <-].
  open_store. split_store.
  - intros s Hs. by apply grow_exists, Hsc.
  - by apply NoDup_fmap_snoc.
  - apply NoDup_fmap_snoc; [done|]. apply next_id_fresh.
Qed.

Lemma add_subsidiary_consistent (d d' : DB) (n : string) (pid : nat) (row : Subsidiary.t) :
  add_subsidiary d n pid = Ok (row, d') →
  (∃ c, c ∈ companies d ∧ Company.id c = pid) →
  consistent d → consistent d'.
Proof.
  unfold add_subsidiary. case_decide as Hn; [done|]. intros [= <- <-] Hpid.
  open_store. split_store.
  - apply snoc_forall; done.
  - intros c Hc. destruct (Hcr c Hc) as [Hs Hx]. split; [by apply grow_exists|done].
  - by apply NoDup_fmap_snoc.
  - apply NoDup_fmap_snoc; [done|]. apply next_id_fresh.
Qed.

Lemma add_client_consistent (d d' : DB) (n contact email : string) (row : Client.t) :
  add_client d n contact email = Ok (row, d') → consistent d → consistent d'.
Proof.
  unfold add_client. case_decide as Hn; [done|]. intros [= <- <-].
  open_store. split_store.
  - intros c Hc. destruct (Hcr c Hc) as [Hs Hx]. split; [done|by apply grow_exists].
  - by apply NoDup_fmap_snoc.
  - apply NoDup_fmap_snoc; [done|]. apply next_id_fresh.
Qed.

Lemma add_contract_consistent (d : DB) (row : Contract.t) :
  Contract.id row = next_id (Contract.id <$> contracts d) →
  (∃ s, s ∈ subsidiaries d ∧ Subsidiary.id s = Contract.subsidiary_id row) →
  (∃ x, x ∈ clients d ∧ Client.id x = Contract.client_id row) →
  consistent d →
  consistent (mkDB (companies d) (subsidiaries d) (clients d) (contracts d ++ [row])
                   (expenses d) (revenues d) (equity_awards d)).
Proof.
  intros Hid Hsub Hcl. open_store. split_store.
  - apply snoc_forall; done.
  - intros r Hin. by apply grow_exists, Hr.
  - intros e Hin. by apply grow_exists, He.
  - intros a Hin. by apply grow_exists, Ha.
  - apply NoDup_fmap_snoc; [done|]. rewrite Hid. apply next_id_fresh.
Qed.

Lemma add_revenue_consistent (d : DB) (cid : nat) (amount : Qc) (on : date) (text : string) :
  references_contract d cid → consistent d → consistent (add_revenue d cid amount on text).
Proof.
  intros Hcid. unfold add_revenue. open_store. split_store.
  - apply snoc_forall; done.
  - apply NoDup_fmap_snoc; [done|]. apply next_id_fresh.
Qed.

Lemma add_expense_consistent (d : DB) (cid : nat) (amount : Qc) (on : date) (text : string) :
  references_contract d cid → consistent d → consistent (add_expense d cid amount on text).
Proof.
  intros Hcid. unfold add_expense. open_store. split_store.
  - apply snoc_forall; done.
  - apply NoDup_fmap_snoc; [done|]. apply next_id_fresh.
Qed.

Lemma add_equity_award_consistent (d : DB) (cid : nat) (who : string) (share : Qc)
    (text : string) (on : date) :
  references_contract d cid →
  consistent d → consistent (add_equity_award d cid who share text on).
Proof.
  intros Hcid. unfold add_equity_award. open_store. split_store.
  - apply snoc_forall; done.
  - apply NoDup_fmap_snoc; [done|]. apply next_id_fresh.
Qed.

(** A dict built from the rows of a table holds only values of its rows,
    and the last row wins its key. *)
Lemma dict_of_rows_lookup {A} (key : A → string) (val : A → nat) (l : list A)
    (m : gmap string nat) (n : string) (v : nat) :
  foldl (λ m x, <[key x := val x]> m) m l !! n = Some v →
  m !! n = Some v ∨ ∃ x, x ∈ l ∧ key x = n ∧ val x = v.
Proof.
  revert m. induction l as [|x l IH]; intros m; simpl; [by left|].
  intros Hl. destruct (IH _ Hl) as [Hins|(y & Hin & Hk & Hv)].
  - destruct (decide (key x = n)) as [<-|Hne].
    + rewrite lookup_insert_eq in Hins. injection Hins as <-.
      right. exists x. split; [left|done].
    + rewrite lookup_insert_ne in Hins by done. by left.
  - right. exists y. split; [by right|done].
Qed.

Lemma dict_of_rows_last {A} (key : A → string) (val : A → nat) (l : list A) (x : A) :
  foldl (λ (m : gmap string nat) x, <[key x := val x]> m) ∅ (l ++ [x]) !! key x
  = Some (val x).
Proof. rewrite foldl_app. simpl. apply lookup_insert_eq. Qed.

Lemma subs_options_ids (d : DB) (n : string) (sid : nat) :
  subs_options d !! n = Some sid →
  ∃ s, s ∈ subsidiaries d ∧ Subsidiary.name s = n ∧ Subsidiary.id s = sid.
Proof.
  intros Hl. destruct (dict_of_rows_lookup _ _ _ _ _ _ Hl) as [Hempty|Hs]; [|done].
  by rewrite lookup_empty in Hempty.
Qed.

Lemma clients_options_ids (d : DB) (n : string) (clid : nat) :
  clients_options d !! n = Some clid →
  ∃ x, x ∈ clients d ∧ Client.name x = n ∧ Client.id x = clid.
Proof.
  intros Hl. destruct (dict_of_rows_lookup _ _ _ _ _ _ Hl) as [Hempty|Hs]; [|done].
  by rewrite lookup_empty in Hempty.
Qed.

Lemma create_client_consistent (d : DB) (cname contact email : string) :
  consistent d → consistent ((create_client d cname contact email).1).
Proof.
  intros Hd. unfold create_client. case_decide; [done|].
  destruct (client_by_name d cname); [done|].
  destruct (add_client d cname contact email) as [[row d']|e] eqn:Hadd; [|done].
  by eapply add_client_consistent.
Qed.

Lemma create_subsidiary_consistent (d : DB) (sname : string) (choice : option string) :
  consistent d → consistent ((create_subsidiary d sname choice).1).
Proof.
  intros Hd. unfold create_subsidiary.
  destruct choice as [choice|]; [|done]. case_decide; [done|].
  destruct (comp_options d !! choice) as [pid|] eqn:Hpid; [|done].
  destruct (subsidiary_by_name d sname); [done|].
  destruct (add_subsidiary d sname pid) as [[row d']|e] eqn:Hadd; [|done].
  eapply add_subsidiary_consistent; [exact Hadd| |done].
  by apply comp_options_ids in Hpid.
Qed.

Lemma create_contract_consistent (d : DB) (sub_choice client_choice : option string)
    (f : contract_fields) :
  consistent d → consistent ((create_contract d sub_choice client_choice f).1).
Proof.
  intros Hd. unfold create_contract.
  destruct sub_choice as [sc|], client_choice as [cc|]; try done.
  case_decide; [done|].
  destruct (subs_options d !! sc) as [sid|] eqn:Hsid; [|done].
  destruct (clients_options d !! cc) as [clid|] eqn:Hclid; [|done].
  cbn [fst]. apply add_contract_consistent; [done| | |done]; simpl.
  - apply subs_options_ids in Hsid as (s & Hs & _ & Hid). by exists s.
  - apply clients_options_ids in Hclid as (x & Hx & _ & Hid). by exists x.
Qed.

Lemma finance_form_consistent (d : DB) (kind : record_type) (selected : option string)
    (f : finance_fields) :
  consistent d → consistent ((finance_form d kind selected f).1).
Proof.
  intros Hd. unfold finance_form.
  destruct (contract_map d) as [m|e] eqn:Hm; [|done].
  destruct selected as [label|]; [|done]. case_decide; [done|].
  destruct (m !! label) as [cid|] eqn:Hl; [|done].
  pose proof (contract_map_ids d m label cid Hm Hl) as Href.
  destruct kind; cbn [fst].
  - by apply add_revenue_consistent.
  - by apply add_expense_consistent.
  - by apply add_equity_award_consistent.
Qed.

Lemma for_each_ensure_consistent (pid : nat) (names : list string) (d d' : DB) :
  (∃ c, c ∈ companies d ∧ Company.id c = pid) →
  consistent d →
  for_each (ensure_subsidiary pid) d names = Ok d' →
  consistent d'.
Proof.
  revert d. induction names as [|n names IH]; intros d Hp Hd; simpl.
  - by intros [= <-].
  - destruct (ensure_subsidiary pid d n) as [d1|e] eqn:E; simpl; [|done].
    apply IH.
    + by rewrite (ensure_subsidiary_companies _ _ _ _ E).
    + unfold ensure_subsidiary in E.
      destruct (subsidiary_by_name d n); [by injection E as <-|].
      destruct (add_subsidiary d n pid) as [[row d2]|e] eqn:Hadd; simpl in E; [|done].
      injection E as <-. by eapply add_subsidiary_consistent.
Qed.

Lemma bootstrap_consistent (d : DB) :
  consistent d → consistent ((bootstrap_default_org d).1).
Proof.
  intros Hd. unfold bootstrap_default_org.
  assert (Hloop : ∀ p d1, p ∈ companies d1 → consistent d1 →
            consistent
              (match for_each (ensure_subsidiary (Company.id p)) d1
                       ["NexxusGovSec"; "3SixMedia"] with
               | Raise e => (d1, Raise e)
               | Ok d2 => (d2, Ok (success "Created BBH, NGS, and 3SM (if missing)."))
               end).1).
  { intros p d1 Hp H1.
    destruct (for_each _ d1 _) as [d2|e] eqn:E; simpl; [|done].
    eapply for_each_ensure_consistent; [|exact H1|exact E]. by exists p. }
  destruct (company_by_name d "BBH") as [p|] eqn:Hp.
  - apply Hloop; [|done]. unfold company_by_name in Hp.
    apply head_Some_elem_of in Hp. by apply list_elem_of_filter in Hp as [_ ?].
  - destruct (add_company d "Black Bear Holdings" true) as [[row d1]|e] eqn:Hadd; [|done].
    apply Hloop; [|by eapply add_company_consistent].
    unfold add_company in Hadd. case_decide; [done|]. injection Hadd as <- <-.
    simpl. apply elem_of_app. right. left.
Qed.

Lemma empty_db_consistent : consistent empty_db.
Proof.
  open_store.
  (split; [|split; [|split; [split; [|split]|split; [split; [|split]|
     split; [|split; [|split; [|split; [|split; [|split]]]]]]]]]);
  try apply NoDup_nil_2; intros x Hin; by apply not_elem_of_nil in Hin.
Qed.

Lemma reachable_consistent (d : DB) : reachable d → consistent d.
Proof.
  unfold reachable. intros Hr.
  eapply (rtc_ind_r (λ s, consistent s)); [| |exact Hr].
  - apply empty_db_consistent.
  - intros d1 d2 _ Hstep IH. destruct Hstep.
    + by apply bootstrap_consistent.
    + by apply create_client_consistent.
    + by apply create_subsidiary_consistent.
    + by apply create_contract_consistent.
    + by apply finance_form_consistent.
    + apply empty_db_consistent.
Qed.

(** X6.  Whatever the user does, starting from a fresh file, the store
    keeps its references whole although the engine does not enforce them:
    every subsidiary points at a stored company, every contract at a
    stored subsidiary and a stored client, and every Revenue, Expense and
    EquityAward row at a stored contract. *)
Theorem reachable_referential_integrity (d : DB) :
  reachable d →
  subsidiaries_reference_companies d ∧ contracts_reference d ∧ ledgers_reference d.
Proof.
  intros (H1 & H2 & H3 & _)%reachable_consistent. done.
Qed.

(** X7.  In every store the application reaches, no two companies, no two
    subsidiaries and no two clients share a name, and no two rows of a
    table share an id. *)
Theorem reachable_unique_keys (d : DB) :
  reachable d → unique_names d ∧ unique_ids d.
Proof.
  intros (_ & _ & _ & H4 & H5)%reachable_consistent. done.
Qed.

Lemma session_db_reachable : reachable session_db.
Proof.
  unfold reachable, session_db.
  eapply rtc_r; [eapply rtc_r; [eapply rtc_r; [apply rtc_once|]|]|].
  - apply step_bootstrap.
  - apply step_client.
  - apply step_contract.
  - apply step_finance.
Qed.

Lemma reachable_referential_integrity_witness :
  subsidiaries_reference_companies session_db
  ∧ contracts_reference session_db ∧ ledgers_reference session_db.
Proof. apply reachable_referential_integrity, session_db_reachable. Defined.

Lemma reachable_unique_keys_witness : unique_names session_db ∧ unique_ids session_db.
Proof. apply reachable_unique_keys, session_db_reachable. Defined.

(** ** The company table *)

Lemma for_each_ensure_companies_run (pid : nat) (d : DB) (names : list string) :
  companies
    ((match for_each (ensure_subsidiary pid) d names with
      | Raise e => (d, Raise e)
      | Ok d2 => (d2, Ok (success "Created BBH, NGS, and 3SM (if missing)."))
      end).1)
  = companies d.
Proof.
  destruct (for_each _ d names) as [d2|e] eqn:E; simpl; [|done].
  by eapply for_each_ensure_companies.
Qed.

Lemma create_client_companies (d : DB) (cname contact email : string) :
  companies ((create_client d cname contact email).1) = companies d.
Proof.
  unfold create_client. case_decide; [done|].
  destruct (client_by_name d cname); [done|].
  unfold add_client. by case_decide.
Qed.

Lemma create_subsidiary_companies (d : DB) (sname : string) (choice : option string) :
  companies ((create_subsidiary d sname choice).1) = companies d.
Proof.
  unfold create_subsidiary. destruct choice as [choice|]; [|done].
  case_decide; [done|]. destruct (comp_options d !! choice); [|done].
  destruct (subsidiary_by_name d sname); [done|].
  unfold add_subsidiary. by case_decide.
Qed.

Lemma create_contract_companies (d : DB) (sub_choice client_choice : option string)
    (f : contract_fields) :
  companies ((create_contract d sub_choice client_choice f).1) = companies d.
Proof.
  unfold create_contract.
  destruct sub_choice as [sc|], client_choice as [cc|]; try done.
  case_decide; [done|]. destruct (subs_options d !! sc); [|done].
  by destruct (clients_options d !! cc).
Qed.

Lemma finance_form_companies (d : DB) (kind : record_type) (selected : option string)
    (f : finance_fields) :
  companies ((finance_form d kind selected f).1) = companies d.
Proof.
  destruct (finance_form_store d kind selected f) as [->|(Hco & _)]; done.
Qed.

Lemma bootstrap_companies (d : DB) :
  companies ((bootstrap_default_org d).1) = companies d
  ∨ (("Black Bear Holdings" ∉ Company.name <$> companies d)
     ∧ companies ((bootstrap_default_org d).1)
       = companies d
         ++ [Company.mk (next_id (Company.id <$> companies d)) "Black Bear Holdings" true]).
Proof.
  unfold bootstrap_default_org.
  destruct (company_by_name d "BBH") as [p|].
  - left. apply for_each_ensure_companies_run.
  - unfold add_company. case_decide as Hname; [by left|].
    right. split; [done|]. by rewrite for_each_ensure_companies_run.
Qed.

Lemma reachable_companies (d : DB) :
  reachable d →
  companies d = [] ∨ companies d = [Company.mk 1 "Black Bear Holdings" true].
Proof.
  unfold reachable. intros Hr.
  eapply (rtc_ind_r (λ s, companies s = []
                          ∨ companies s = [Company.mk 1 "Black Bear Holdings" true]));
    [| |exact Hr].
  - by left.
  - intros d1 d2 _ Hstep IH. destruct Hstep.
    + destruct (bootstrap_companies d0) as [->|[Hfresh ->]]; [done|].
      destruct IH as [Hnone|Hone].
      * rewrite Hnone. by right.
      * exfalso. apply Hfresh. rewrite Hone. by apply list_elem_of_singleton.
    + by rewrite create_client_companies.
    + by rewrite create_subsidiary_companies.
    + by rewrite create_contract_companies.
    + by rewrite finance_form_companies.
    + by left.
Qed.

(** X8.  The only company the application ever stores is the one the
    bootstrap button creates: in every store it reaches, the company table
    is empty or holds the single row with id 1, name "Black Bear Holdings"
    and the parent flag set; every subsidiary then belongs to company 1. *)
Theorem reachable_single_company (d : DB) :
  reachable d →
  (companies d = [] ∨ companies d = [Company.mk 1 "Black Bear Holdings" true])
  ∧ Forall (λ s, Subsidiary.company_id s = 1%nat) (subsidiaries d).
Proof.
  intros Hr. pose proof (reachable_companies d Hr) as Hco. split; [exact Hco|].
  apply reachable_consistent in Hr as (Hsc & _).
  apply Forall_forall. intros s Hs. destruct (Hsc s Hs) as (c & Hc & <-).
  destruct Hco as [Hnone|Hone].
  - rewrite Hnone in Hc. by apply not_elem_of_nil in Hc.
  - rewrite Hone in Hc. apply list_elem_of_singleton in Hc. by subst c.
Qed.

Lemma reachable_single_company_witness :
  (companies session_db = []
   ∨ companies session_db = [Company.mk 1 "Black Bear Holdings" true])
  ∧ Forall (λ s, Subsidiary.company_id s = 1%nat) (subsidiaries session_db).
Proof. apply reachable_single_company, session_db_reachable. Defined.

(** ** Reading a consistent store never fails *)

Lemma subsidiary_name_of_Ok (d : DB) (c : Contract.t) :
  (∃ s, s ∈ subsidiaries d ∧ Subsidiary.id s = Contract.subsidiary_id c) →
  ∃ n, subsidiary_name_of d c = Ok n.
Proof.
  intros (s & Hs & Hid). unfold subsidiary_name_of.
  destruct (head_filter_Some (λ s, Subsidiary.id s = Contract.subsidiary_id c) _ s Hs Hid)
    as (y & -> & _). by eexists.
Qed.

Lemma client_name_of_Ok (d : DB) (c : Contract.t) :
  (∃ x, x ∈ clients d ∧ Client.id x = Contract.client_id c) →
  ∃ n, client_name_of d c = Ok n.
Proof.
  intros (x & Hx & Hid). unfold client_name_of.
  destruct (head_filter_Some (λ x, Client.id x = Contract.client_id c) _ x Hx Hid)
    as (y & -> & _). by eexists.
Qed.

Lemma mapM_result_Ok {A B} (f : A → result B) (l : list A) :
  (∀ x, x ∈ l → ∃ y, f x = Ok y) → ∃ k, mapM f l = Ok k ∧ length k = length l.
Proof.
  induction l as [|x l IH]; intros Hf; simpl.
  - by exists [].
  - destruct (Hf x) as [y Hy]; [left|]. rewrite Hy. simpl.
    destruct IH as (k & -> & Hlen).
    + intros z Hz. apply Hf. by right.
    + simpl. exists (y :: k). simpl. by rewrite Hlen.
Qed.

Lemma contract_map_of_Ok (d : DB) (cs : list Contract.t) (m : gmap string nat) :
  (∀ c, c ∈ cs → ∃ n, subsidiary_name_of d c = Ok n) →
  ∃ m', contract_map_of d m cs = Ok m'.
Proof.
  revert m. induction cs as [|c cs IH]; intros m Hcs; simpl.
  - by eexists.
  - unfold contract_label. destruct (Hcs c) as [n ->]; [left|]. simpl.
    apply IH. intros c' Hc'. apply Hcs. by right.
Qed.

(** X9.  In a store whose contracts all point at a stored subsidiary and
    a stored client, as in every store the application reaches, reading
    the contracts never raises: the export succeeds with one line of
    labels and one line per contract, and the finance form gets its map
    of selectable contracts. *)
Theorem consistent_store_reads (d : DB) :
  contracts_reference d →
  (∃ lines, export_contracts_csv d = Ok lines ∧ length lines = S (length (contracts d)))
  ∧ (∃ m, contract_map d = Ok m).
Proof.
  intros Href. split.
  - unfold export_contracts_csv.
    destruct (mapM_result_Ok (export_row d) (contracts d)) as (rows & -> & Hlen).
    + intros c Hc. destruct (Href c Hc) as [Hs Hx]. unfold export_row.
      destruct (subsidiary_name_of_Ok d c Hs) as [n ->].
      destruct (client_name_of_Ok d c Hx) as [n' ->]. simpl. by eexists.
    + simpl. eexists. split; [done|]. simpl. by rewrite length_fmap, Hlen.
  - apply contract_map_of_Ok. intros c Hc. apply subsidiary_name_of_Ok, Href, Hc.
Qed.

Lemma consistent_store_reads_witness :
  (∃ lines, export_contracts_csv session_db = Ok lines
            ∧ length lines = S (length (contracts session_db)))
  ∧ (∃ m, contract_map session_db = Ok m).
Proof.
  apply consistent_store_reads.
  intros c Hc. simpl in Hc. apply list_elem_of_singleton in Hc. subst c. split.
  - eexists. split; [left|reflexivity].
  - eexists. split; [left|reflexivity].
Defined.

(** * How the forms move the rollups *)

Lemma calc_same_ledgers (d d' : DB) (c : Contract.t) :
  revenues d' = revenues d → expenses d' = expenses d →
  calc_contract_aggregates d' c = calc_contract_aggregates d c.
Proof.
  intros Hr He. unfold calc_contract_aggregates, revenues_of, expenses_of.
  by rewrite Hr, He.
Qed.

Lemma filter_snoc {A} (P : A → Prop) `{!∀ x, Decision (P x)} (l : list A) (x : A) :
  filter P (l ++ [x]) = filter P l ++ (if decide (P x) then [x] else []).
Proof.
  rewrite filter_app. reflexivity.
Qed.


(** ** What leaves the aggregates alone *)

Lemma for_each_ensure_ledgers (pid : nat) (names : list string) (d d' : DB) :
  for_each (ensure_subsidiary pid) d names = Ok d' →
  revenues d' = revenues d ∧ expenses d' = expenses d.
Proof.
  revert d. induction names as [|n names IH]; intros d; simpl.
  - by intros [= ->].
  - destruct (ensure_subsidiary pid d n) as [d1|e] eqn:E; simpl; [|done].
    intros Hrest. destruct (IH _ Hrest) as [-> ->].
    unfold ensure_subsidiary, add_subsidiary in E.
    destruct (subsidiary_by_name d n); [by injection E as <-|].
    case_decide; simpl in E; [done|]. by injection E as <-.
Qed.

Lemma bootstrap_ledgers (d : DB) :
  revenues ((bootstrap_default_org d).1) = revenues d
  ∧ expenses ((bootstrap_default_org d).1) = expenses d.
Proof.
  unfold bootstrap_default_org.
  assert (Hloop : ∀ pid d1,
            revenues ((match for_each (ensure_subsidiary pid) d1
                               ["NexxusGovSec"; "3SixMedia"] with
                       | Raise e => (d1, Raise e)
                       | Ok d2 => (d2, Ok (success "Created BBH, NGS, and 3SM (if missing)."))
                       end).1) = revenues d1
            ∧ expenses ((match for_each (ensure_subsidiary pid) d1
                                 ["NexxusGovSec"; "3SixMedia"] with
                         | Raise e => (d1, Raise e)
                         | Ok d2 => (d2, Ok (success "Created BBH, NGS, and 3SM (if missing)."))
                         end).1) = expenses d1).
  { intros pid d1. destruct (for_each _ d1 _) as [d2|e] eqn:E; [|done].
    by apply for_each_ensure_ledgers in E. }
  destruct (company_by_name d "BBH") as [p|]; [apply Hloop|].
  unfold add_company. case_decide; [done|].
  destruct (Hloop (next_id (Company.id <$> companies d))
              (mkDB (companies d
                     ++ [Company.mk (next_id (Company.id <$> companies d))
                                    "Black Bear Holdings" true])
                    (subsidiaries d) (clients d) (contracts d)
                    (expenses d) (revenues d) (equity_awards d))) as [Hr He].
  split; [exact Hr|exact He].
Qed.

(** X11.  Only a recorded revenue or expense moves a contract's numbers:
    creating the default organisation, a client, a subsidiary or a
    contract, and awarding equity, leave the revenue, expenses, profit and
    subsidiary share of every contract as they were. *)
Theorem aggregates_untouched (d : DB) (c : Contract.t) :
  calc_contract_aggregates ((bootstrap_default_org d).1) c = calc_contract_aggregates d c
  ∧ (∀ cname contact email,
       calc_contract_aggregates ((create_client d cname contact email).1) c
       = calc_contract_aggregates d c)
  ∧ (∀ sname choice,
       calc_contract_aggregates ((create_subsidiary d sname choice).1) c
       = calc_contract_aggregates d c)
  ∧ (∀ sub_choice client_choice f,
       calc_contract_aggregates ((create_contract d sub_choice client_choice f).1) c
       = calc_contract_aggregates d c)
  ∧ (∀ selected f,
       calc_contract_aggregates ((finance_form d Equity_kind selected f).1) c
       = calc_contract_aggregates d c).
Proof.
  split; [|split; [|split; [|split]]].
  - destruct (bootstrap_ledgers d) as [Hr He]. by apply calc_same_ledgers.
  - intros cname contact email. apply calc_same_ledgers;
      unfold create_client; (case_decide; [done|]);
      (destruct (client_by_name d cname); [done|]);
      unfold add_client; by case_decide.
  - intros sname choice. apply calc_same_ledgers;
      unfold create_subsidiary; (destruct choice as [choice|]; [|done]);
      (case_decide; [done|]); (destruct (comp_options d !! choice); [|done]);
      (destruct (subsidiary_by_name d sname); [done|]);
      unfold add_subsidiary; by case_decide.
  - intros sub_choice client_choice f. apply calc_same_ledgers;
      unfold create_contract;
      (destruct sub_choice as [sc|], client_choice as [cc|]; try done);
      (case_decide; [done|]); (destruct (subs_options d !! sc); [|done]);
      by destruct (clients_options d !! cc).
  - intros selected f. apply calc_same_ledgers;
      unfold finance_form; (destruct (contract_map d); [|done]);
      (destruct selected as [label|]; [|done]); (case_decide; [done|]);
      by destruct (_ !! label).
Qed.

(** ** A new contract in the rollup of its subsidiary *)

(** Under whole ledgers no row waits for the id a new contract gets. *)
Lemma fresh_contract_zero (d d' : DB) (row : Contract.t) :
  ledgers_reference d →
  revenues d' = revenues d → expenses d' = expenses d →
  Contract.id row = next_id (Contract.id <$> contracts d) →
  ContractAgg.revenue (calc_contract_aggregates d' row) = 0
  ∧ ContractAgg.expenses (calc_contract_aggregates d' row) = 0
  ∧ ContractAgg.profit (calc_contract_aggregates d' row) = 0.
Proof.
  intros (Hr & He & _) Hrev Hexp Hid.
  assert (Hfresh : ∀ cid, references_contract d cid → cid ≠ Contract.id row).
  { intros cid (c & Hc & <-) Heq. rewrite Hid in Heq.
    apply (next_id_fresh (Contract.id <$> contracts d)). rewrite <- Heq.
    apply list_elem_of_fmap. by exists c. }
  rewrite calc_profit, calc_revenue, calc_expenses.
  unfold revenues_of, expenses_of. rewrite Hrev, Hexp.
  rewrite !filter_none.
  - repeat split; sum_ring.
  - apply Forall_forall. intros e Hin. by apply Hfresh, He.
  - apply Forall_forall. intros r Hin. by apply Hfresh, Hr.
Qed.

(** X12.  In a store whose ledger rows all point at a stored contract, a
    contract created through the form joins the rollup of the chosen
    subsidiary with nothing on it: the subsidiary's contract count grows
    by one, its revenue, expenses and profit stay as they were, and the
    rollup of every other subsidiary is unchanged. *)
Theorem create_contract_joins_rollup (d : DB) (sc cc : string) (f : contract_fields)
    (sid clid : nat) :
  title f ≠ "" → sc ≠ "" → cc ≠ "" →
  subs_options d !! sc = Some sid → clients_options d !! cc = Some clid →
  ledgers_reference d →
  let d' := (create_contract d (Some sc) (Some cc) f).1 in
  aggregate_for_subsidiary d' sid
  = SubsidiaryAgg.mk (SubsidiaryAgg.revenue (aggregate_for_subsidiary d sid))
                     (SubsidiaryAgg.expenses (aggregate_for_subsidiary d sid))
                     (SubsidiaryAgg.profit (aggregate_for_subsidiary d sid))
                     (S (SubsidiaryAgg.contracts (aggregate_for_subsidiary d sid)))
  ∧ (∀ s, s ≠ sid → aggregate_for_subsidiary d' s = aggregate_for_subsidiary d s).
Proof.
  intros Ht Hsc Hcc Hsid Hclid Hled d'. subst d'.
  unfold create_contract.
  rewrite decide_False by (intros [?|[?|?]]; done).
  rewrite Hsid, Hclid. cbn [fst].
  set (row := Contract.mk _ _ _ _ _ _ _ _ _ _ _ _).
  set (d' := mkDB _ _ _ _ _ _ _).
  assert (Hcalc : ∀ c, calc_contract_aggregates d' c = calc_contract_aggregates d c).
  { intros c. by apply calc_same_ledgers. }
  destruct (fresh_contract_zero d d' row Hled eq_refl eq_refl eq_refl) as (Hr0 & He0 & Hp0).
  assert (Hcs : ∀ s, contracts_of d' s
                     = contracts_of d s
                       ++ (if decide (Contract.subsidiary_id row = s) then [row] else [])).
  { intros s. unfold contracts_of, d'. cbn [contracts].
    rewrite filter_app. reflexivity. }
  split.
  - rewrite !subsidiary_fields, Hcs.
    rewrite decide_True by done.
    cbn [SubsidiaryAgg.revenue SubsidiaryAgg.expenses SubsidiaryAgg.profit
         SubsidiaryAgg.contracts].
    rewrite !fmap_app, !Qc_sum_app, !fmap_cons, !fmap_nil, !Qc_sum_cons, !Qc_sum_nil.
    rewrite Hr0, He0, Hp0, length_app. cbn [length].
    f_equal.
    + rewrite (Qc_sum_ext _ (λ c, ContractAgg.revenue (calc_contract_aggregates d c)))
        by (intros c _; by rewrite Hcalc). ring.
    + rewrite (Qc_sum_ext _ (λ c, ContractAgg.expenses (calc_contract_aggregates d c)))
        by (intros c _; by rewrite Hcalc). ring.
    + rewrite (Qc_sum_ext _ (λ c, ContractAgg.profit (calc_contract_aggregates d c)))
        by (intros c _; by rewrite Hcalc). ring.
    + lia.
  - intros s Hs. rewrite !subsidiary_fields, Hcs.
    rewrite decide_False by (subst row; cbn [Contract.subsidiary_id]; congruence).
    rewrite app_nil_r. f_equal; apply Qc_sum_ext; intros c _; by rewrite Hcalc.
Qed.

Lemma create_contract_joins_rollup_witness :
  SubsidiaryAgg.contracts
    (aggregate_for_subsidiary
       ((create_contract example_db (Some "NexxusGovSec") (Some "Acme")
                         example_contract_fields).1) 1)
  = 2%nat.
Proof.
  assert (Hled : ledgers_reference example_db).
  { split; [|split]; intros x Hin; simpl in Hin.
    - exists example_contract. split; [left|].
      apply elem_of_cons in Hin as [->|Hin]; [done|].
      apply list_elem_of_singleton in Hin. by subst x.
    - exists example_contract. split; [left|].
      apply list_elem_of_singleton in Hin. by subst x.
    - by apply not_elem_of_nil in Hin. }
  destruct (create_contract_joins_rollup example_db "NexxusGovSec" "Acme"
              example_contract_fields 1 1 ltac:(discriminate) ltac:(discriminate)
              ltac:(discriminate) eq_refl eq_refl Hled) as [Hsame _].
  rewrite Hsame. reflexivity.
Defined.

(** ** Names that no row carries *)

Lemma client_by_name_None_inv (d : DB) (n : string) :
  client_by_name d n = None → n ∉ Client.name <$> clients d.
Proof.
  intros Hnone Hin. destruct (client_by_name_Some d n Hin) as [c Hc]. congruence.
Qed.

Lemma subsidiary_by_name_None_inv (d : DB) (n : string) :
  subsidiary_by_name d n = None → n ∉ Subsidiary.name <$> subsidiaries d.
Proof.
  intros Hnone Hin. destruct (subsidiary_by_name_Some d n Hin) as [c Hc]. congruence.
Qed.

(** ** The duplicate checks shield the UNIQUE constraints *)

(** X15.  The two data entry forms for named rows never run into the
    UNIQUE constraint they check for: "Create client" always ends in a
    message, and the only way "Create subsidiary" can raise is a parent
    choice that is not among the offered companies. *)
Theorem forms_never_violate_unique (d : DB) (cname contact email sname : string)
    (choice : option string) :
  (∃ fb, (create_client d cname contact email).2 = Ok fb)
  ∧ (∀ e, (create_subsidiary d sname choice).2 = Raise e →
          ∃ k, e = KeyError k ∧ choice = Some k ∧ comp_options d !! k = None).
Proof.
  split.
  - unfold create_client. case_decide; [by eexists|].
    destruct (client_by_name d cname) eqn:Hfind; [by eexists|].
    apply client_by_name_None_inv in Hfind.
    unfold add_client. rewrite decide_False by done. by eexists.
  - intros e. unfold create_subsidiary.
    destruct choice as [k|]; [|done]. case_decide; [done|].
    destruct (comp_options d !! k) as [pid|] eqn:Hpid.
    + destruct (subsidiary_by_name d sname) eqn:Hfind; [done|].
      apply subsidiary_by_name_None_inv in Hfind.
      unfold add_subsidiary. by rewrite decide_False by done.
    + intros [= <-]. by exists k.
Qed.

(** ** Amounts that are not negative *)

Lemma Qc_sum_nonneg (xs : list Qc) : Forall (λ x, 0 ≤ x) xs → 0 ≤ Qc_sum xs.
Proof.
  induction 1 as [|x xs Hx _ IH]; [done|].
  rewrite Qc_sum_cons. by apply Qcplus_nonneg_nonneg.
Qed.

Lemma Qc_sum_fmap_nonneg {A} (f : A → Qc) (l : list A) :
  (∀ x, x ∈ l → 0 ≤ f x) → 0 ≤ Qc_sum (f <$> l).
Proof.
  intros Hf. apply Qc_sum_nonneg, Forall_fmap, Forall_forall. exact Hf.
Qed.

Lemma minus_nonneg_le (x y : Qc) : 0 ≤ y → x - y ≤ x.
Proof.
  intros Hy. replace x with (x + 0) at 2 by ring. unfold Qcminus.
  apply Qcplus_le_mono_l. replace 0 with (- 0) by ring. by apply Qcopp_le_compat.
Qed.

Lemma contract_nonnegative (d : DB) (c : Contract.t) :
  Forall (λ r, 0 ≤ Revenue.amount r) (revenues d) →
  Forall (λ e, 0 ≤ Expense.amount e) (expenses d) →
  0 ≤ ContractAgg.revenue (calc_contract_aggregates d c)
  ∧ 0 ≤ ContractAgg.expenses (calc_contract_aggregates d c).
Proof.
  rewrite !Forall_forall. intros Hr He.
  rewrite calc_revenue, calc_expenses. split; apply Qc_sum_fmap_nonneg.
  - intros r [_ Hin]%list_elem_of_filter. by apply Hr.
  - intros e [_ Hin]%list_elem_of_filter. by apply He.
Qed.

(** X18.  When no recorded amount is negative, which is all the finance
    form lets in, no rollup shows a negative revenue or negative expenses,
    and no profit exceeds its revenue: this holds for every contract,
    every subsidiary and every company. *)
Theorem rollups_nonnegative (d : DB) (c : Contract.t) (s co : nat) :
  Forall (λ r, 0 ≤ Revenue.amount r) (revenues d) →
  Forall (λ e, 0 ≤ Expense.amount e) (expenses d) →
  (0 ≤ ContractAgg.revenue (calc_contract_aggregates d c)
   ∧ 0 ≤ ContractAgg.expenses (calc_contract_aggregates d c)
   ∧ ContractAgg.profit (calc_contract_aggregates d c)
     ≤ ContractAgg.revenue (calc_contract_aggregates d c))
  ∧ (0 ≤ SubsidiaryAgg.revenue (aggregate_for_subsidiary d s)
     ∧ 0 ≤ SubsidiaryAgg.expenses (aggregate_for_subsidiary d s)
     ∧ SubsidiaryAgg.profit (aggregate_for_subsidiary d s)
       ≤ SubsidiaryAgg.revenue (aggregate_for_subsidiary d s))
  ∧ (0 ≤ CompanyAgg.revenue (aggregate_for_company d co)
     ∧ 0 ≤ CompanyAgg.expenses (aggregate_for_company d co)
     ∧ CompanyAgg.profit (aggregate_for_company d co)
       ≤ CompanyAgg.revenue (aggregate_for_company d co)).
Proof.
  intros Hr He.
  assert (Hsub : ∀ s, 0 ≤ SubsidiaryAgg.revenue (aggregate_for_subsidiary d s)
                      ∧ 0 ≤ SubsidiaryAgg.expenses (aggregate_for_subsidiary d s)).
  { intros s0. rewrite subsidiary_fields.
    cbn [SubsidiaryAgg.revenue SubsidiaryAgg.expenses].
    split; apply Qc_sum_fmap_nonneg; intros c0 _;
      by destruct (contract_nonnegative d c0 Hr He). }
  assert (Hco : 0 ≤ CompanyAgg.revenue (aggregate_for_company d co)
                ∧ 0 ≤ CompanyAgg.expenses (aggregate_for_company d co)).
  { rewrite company_fields. cbn [CompanyAgg.revenue CompanyAgg.expenses].
    split; apply Qc_sum_fmap_nonneg; intros s0 _; by destruct (Hsub (Subsidiary.id s0)). }
  destruct (contract_nonnegative d c Hr He) as [Hc1 Hc2].
  destruct (Hsub s) as [Hs1 Hs2]. destruct Hco as [Hco1 Hco2].
  split; [|split].
  - split; [done|]. split; [done|]. rewrite calc_profit. by apply minus_nonneg_le.
  - split; [done|]. split; [done|]. rewrite subsidiary_profit. by apply minus_nonneg_le.
  - split; [done|]. split; [done|].
    assert (Hp : CompanyAgg.profit (aggregate_for_company d co)
                 = CompanyAgg.revenue (aggregate_for_company d co)
                   - CompanyAgg.expenses (aggregate_for_company d co)).
    { rewrite company_fields.
      cbn [CompanyAgg.revenue CompanyAgg.expenses CompanyAgg.profit].
      rewrite <- Qc_sum_minus. apply Qc_sum_ext. intros x _. apply subsidiary_profit. }
    rewrite Hp. by apply minus_nonneg_le.
Qed.

Lemma rollups_nonnegative_witness :
  0 ≤ CompanyAgg.revenue (aggregate_for_company example_db 1)
  ∧ CompanyAgg.profit (aggregate_for_company example_db 1)
    ≤ CompanyAgg.revenue (aggregate_for_company example_db 1).
Proof.
  destruct (rollups_nonnegative example_db example_contract 1 1) as (_ & _ & H0 & _ & Hle).
  - simpl. repeat constructor; discriminate.
  - simpl. repeat constructor; discriminate.
  - by split.
Defined.

(** * What the forms offer after a creation *)

(** X13.  A client or a subsidiary that its form has just created is on
    offer in the contract form: the option map built after the creation
    sends the new name to the id the row was given.  The client needs a
    non-empty name that no client has; the subsidiary a non-empty name
    that no subsidiary has and a parent chosen among the companies. *)
Theorem created_names_are_offered (d : DB) (cname contact email sname : string) :
  (cname ≠ "" → cname ∉ Client.name <$> clients d →
   clients_options ((create_client d cname contact email).1) !! cname
   = Some (next_id (Client.id <$> clients d)))
  ∧ (∀ (choice : string) (pid : nat),
       sname ≠ "" → sname ∉ Subsidiary.name <$> subsidiaries d →
       choice ≠ "" → comp_options d !! choice = Some pid →
       subs_options ((create_subsidiary d sname (Some choice)).1) !! sname
       = Some (next_id (Subsidiary.id <$> subsidiaries d))).
Proof.
  split.
  - intros Hc Hcnew. unfold create_client. rewrite decide_False by done.
    rewrite client_by_name_None by done.
    unfold add_client. rewrite decide_False by done. cbn [fst].
    unfold clients_options. cbn [clients].
    apply (dict_of_rows_last Client.name Client.id).
  - intros choice pid Hs Hsnew Hch Hpid.
    unfold create_subsidiary. rewrite decide_False by (intros [?|?]; done).
    rewrite Hpid, subsidiary_by_name_None by done.
    unfold add_subsidiary. rewrite decide_False by done. cbn [fst].
    unfold subs_options. cbn [subsidiaries].
    apply (dict_of_rows_last Subsidiary.name Subsidiary.id).
Qed.

Lemma created_names_are_offered_witness :
  clients_options ((create_client empty_db "Borealis" "" "").1) !! "Borealis" = Some 1%nat
  ∧ subs_options ((create_subsidiary session_db "Fourth Meridian"
                                     (Some "Black Bear Holdings")).1) !! "Fourth Meridian"
    = Some 3%nat.
Proof.
  destruct (created_names_are_offered empty_db "Borealis" "" "" "") as [Hclient _].
  destruct (created_names_are_offered session_db "" "" "" "Fourth Meridian") as [_ Hsub].
  split.
  - apply Hclient; [discriminate|]. simpl. apply not_elem_of_nil.
  - apply (Hsub "Black Bear Holdings" 1%nat); try discriminate.
    + vm_compute. intros Hin.
      apply elem_of_cons in Hin as [Heq|Hin]; [discriminate|].
      apply list_elem_of_singleton in Hin. discriminate.
    + vm_compute. reflexivity.
Defined.

Lemma contract_map_of_same_subs (d d' : DB) (cs : list Contract.t) (m : gmap string nat) :
  subsidiaries d' = subsidiaries d → contract_map_of d' m cs = contract_map_of d m cs.
Proof.
  intros Hsub. revert m. induction cs as [|c cs IH]; intros m; simpl; [done|].
  unfold contract_label, subsidiary_name_of. rewrite Hsub.
  destruct (head _); simpl; [apply IH|done].
Qed.

Lemma contract_map_of_snoc (d : DB) (cs : list Contract.t) (c : Contract.t)
    (m m1 : gmap string nat) (label : string) :
  contract_map_of d m cs = Ok m1 → contract_label d c = Ok label →
  contract_map_of d m (cs ++ [c]) = Ok (<[label := Contract.id c]> m1).
Proof.
  revert m. induction cs as [|c0 cs IH]; intros m; simpl.
  - intros [= <-] ->. done.
  - destruct (contract_label d c0); simpl; [|done]. apply IH.
Qed.

Lemma NoDup_fmap_same {A B} (g : A → B) (l : list A) (x y : A) :
  NoDup (g <$> l) → x ∈ l → y ∈ l → g x = g y → x = y.
Proof.
  induction l as [|a l IH]; simpl; intros Hnd Hx Hy Heq.
  { by apply not_elem_of_nil in Hx. }
  apply NoDup_cons in Hnd as [Hnotin Hnd].
  apply elem_of_cons in Hx as [->|Hx]; apply elem_of_cons in Hy as [->|Hy].
  - done.
  - exfalso. apply Hnotin. rewrite Heq. apply list_elem_of_fmap. by exists y.
  - exfalso. apply Hnotin. rewrite <- Heq. apply list_elem_of_fmap. by exists x.
  - by apply IH.
Qed.

(** The subsidiary a contract row loads is the one the option map named,
    when no two subsidiaries share their id. *)
Lemma subsidiary_name_of_option (d : DB) (c : Contract.t) (sc : string) :
  NoDup (Subsidiary.id <$> subsidiaries d) →
  subs_options d !! sc = Some (Contract.subsidiary_id c) →
  subsidiary_name_of d c = Ok sc.
Proof.
  intros Hnd Hsid. apply subs_options_ids in Hsid as (s & Hs & Hname & Hid).
  unfold subsidiary_name_of.
  destruct (head (filter (λ s0, Subsidiary.id s0 = Contract.subsidiary_id c)
                         (subsidiaries d))) as [y|] eqn:Hhead.
  - apply head_Some_elem_of in Hhead.
    apply list_elem_of_filter in Hhead as [Hyid Hy].
    assert (y = s) as ->; [|by rewrite Hname].
    apply (NoDup_fmap_same Subsidiary.id (subsidiaries d)); [done..|congruence].
  - apply head_None in Hhead.
    assert (Hin : s ∈ filter (λ s0, Subsidiary.id s0 = Contract.subsidiary_id c)
                             (subsidiaries d)) by (by apply list_elem_of_filter).
    rewrite Hhead in Hin. by apply not_elem_of_nil in Hin.
Qed.

(** X14.  A contract that its form has just created is on offer in the
    finance form under its own label: in a store whose contracts point at
    stored subsidiaries and whose subsidiaries have distinct ids, the map
    of selectable contracts built after the creation sends the label made
    of the new id, the title and the name of the chosen subsidiary to the
    new contract. *)
Theorem created_contract_is_offered (d : DB) (sc cc : string) (f : contract_fields)
    (sid clid : nat) :
  title f ≠ "" → sc ≠ "" → cc ≠ "" →
  subs_options d !! sc = Some sid → clients_options d !! cc = Some clid →
  contracts_reference d →
  NoDup (Subsidiary.id <$> subsidiaries d) →
  let new_id := next_id (Contract.id <$> contracts d) in
  ∃ m,
    contract_map ((create_contract d (Some sc) (Some cc) f).1) = Ok m
    ∧ m !! (pretty new_id +:+ " - " +:+ title f +:+ " (" +:+ sc +:+ ")") = Some new_id.
Proof.
  intros Ht Hsc Hcc Hsid Hclid Href Hnd new_id.
  unfold create_contract.
  rewrite decide_False by (intros [?|[?|?]]; done).
  rewrite Hsid, Hclid. cbn [fst].
  set (row := Contract.mk _ _ _ _ _ _ _ _ _ _ _ _).
  unfold contract_map. cbn [contracts].
  destruct (contract_map_of_Ok d (contracts d) ∅) as [m1 Hm1].
  { intros c Hc. apply subsidiary_name_of_Ok, Href, Hc. }
  assert (Hsub : subsidiary_name_of d row = Ok sc).
  { by apply subsidiary_name_of_option. }
  eexists. split.
  - rewrite (contract_map_of_same_subs d) by done.
    apply (contract_map_of_snoc d _ row _ m1); [exact Hm1|].
    unfold contract_label. rewrite Hsub. reflexivity.
  - apply lookup_insert_eq.
Qed.

Lemma created_contract_is_offered_witness :
  ∃ m,
    contract_map ((create_contract session_db (Some "3SixMedia") (Some "Acme")
                                   example_contract_fields).1) = Ok m
    ∧ m !! (pretty 2%nat +:+ " - " +:+ "Survey" +:+ " (" +:+ "3SixMedia" +:+ ")")
      = Some 2%nat.
Proof.
  destruct (reachable_consistent session_db session_db_reachable)
    as (_ & Href & _ & _ & _ & Hids & _).
  apply (created_contract_is_offered session_db "3SixMedia" "Acme"
           example_contract_fields 2 1); try discriminate; try done.
Defined.

(** * What a recorded amount does to the numbers of the source *)






(** * The revenue time series *)
















